(** * VoxWorld radio player: the fallback/retry state machine

    A shallow embedding of the [RadioPlayer] React component (the six-stage
    player with the visualizer, and the earlier three-stage player for the
    segmented-stream error classification), with the properties of its retry
    stage, its stream resolver and its analysis flag.

    Strings are Rocq byte strings.  Every pattern the player searches for
    ("http://", ".m3u8", "?", ";", "/") is ASCII, so searching bytes agrees
    with JavaScript's search over UTF-16 code units. *)

From Stdlib Require Import String Ascii List Bool Arith Lia NArith DecimalString.
From Stdlib Require Import DecimalN.
Import ListNotations.
Local Open Scope string_scope.
Local Open Scope bool_scope.

(** ** JavaScript string primitives used by the player *)

Module JsString.

(** [s.startsWith(p)] *)
Definition startsWith (s p : string) : bool := String.prefix p s.

(** [s.slice(n)] *)
Fixpoint drop (n : nat) (s : string) : string :=
  match n, s with
  | O, _ => s
  | S _, EmptyString => EmptyString
  | S m, String _ t => drop m t
  end.

(** [s.includes(p)] *)
Fixpoint includes (s p : string) : bool :=
  startsWith s p ||
  match s with
  | EmptyString => false
  | String _ t => includes t p
  end.

(** [s.endsWith(p)] *)
Definition endsWith (s p : string) : bool :=
  Nat.leb (String.length p) (String.length s) &&
  String.eqb (drop (String.length s - String.length p) s) p.

(** [s.replace(pat, rep)] with a string pattern: the first occurrence only.
    The replacement strings of the player hold no [$] pattern. *)
Fixpoint replace (s pat rep : string) : string :=
  if startsWith s pat then rep ++ drop (String.length pat) s
  else match s with
       | EmptyString => EmptyString
       | String c t => String c (replace t pat rep)
       end.

(** The decimal rendering of a non-negative integer inside a template
    literal, as for [Date.now()]. *)
Definition ofNumber (n : N) : string := NilZero.string_of_uint (N.to_uint n).

End JsString.

Import JsString.

(** ** Data model *)

(** The fields of [Station] (types.ts) that the player's logic reads; the
    remaining ones are only displayed. *)
Record Station := mkStation {
  stationuuid : string;
  url : string;
  url_resolved : string
}.

(** What a handler reads from the host at the moment it runs. *)
Record Env := mkEnv {
  protocol : string;      (* window.location.protocol *)
  now : N;                (* Date.now() *)
  hlsSupported : bool;    (* Hls.isSupported() *)
  ctxThrows : bool;       (* new AudioContext() / createAnalyser() throws *)
  tapThrows : bool        (* createMediaElementSource(audio) throws *)
}.

(** [a || b] on strings: the empty string is falsy. *)
Definition orElse (a b : string) : string :=
  match a with EmptyString => b | _ => a end.

(** ** Stream resolver *)

Definition baseUrl (s : Station) (stage : nat) : string :=
  if Nat.eqb stage 0 || Nat.eqb stage 1 || Nat.eqb stage 3
  then orElse (url_resolved s) (url s) else url s.

Definition upgradeHttps (e : Env) (stage : nat) (u : string) : string :=
  if Nat.leb stage 1 && startsWith u "http://" && String.eqb (protocol e) "https:"
  then replace u "http://" "https://" else u.

Definition legacyMutation (e : Env) (u : string) : string :=
  let u1 :=
    if negb (endsWith u ";") && negb (includes u "?")
    then (if endsWith u "/" then u ++ ";" else u ++ "/;")
    else u in
  let sep := if includes u1 "?" then "&" else "?" in
  u1 ++ sep ++ "cb=" ++ ofNumber (now e).

Definition getUrlForStage (e : Env) (s : Station) (stage : nat) : string :=
  let u := upgradeHttps e stage (baseUrl s stage) in
  if Nat.eqb stage 5 then legacyMutation e u else u.

(** ** Player state *)

Inductive ErrorType := NETWORK | DECODE | ACCESS | OFFLINE | UNKNOWN.

Record PlayerError := mkError {
  message : string;
  type : ErrorType
}.

(** Props handed down by [App]: its [currentStation] and [isPlaying]. *)
Record Props := mkProps {
  station : option Station;
  isPlaying : bool
}.

(** The [useState] cells of the player that its logic depends on. *)
Record Hooks := mkHooks {
  retryStage : nat;
  error : option PlayerError;
  isBuffering : bool;
  isCorsBlocked : bool
}.

(** The values one render closes over. *)
Record Render := mkRender {
  r_props : Props;
  r_hooks : Hooks
}.

(** The [useRef] cells: whether [.current] holds an object. *)
Record Refs := mkRefs {
  hlsRef : bool;
  audioCtxRef : bool;
  analyserRef : bool;
  sourceRef : bool
}.

(** Who awaits an in-flight [audio.play()]: the source-attach effect chains
    [.catch(() => setRetryStage(prev => prev + 1))], the MANIFEST_PARSED
    callback chains nothing. *)
Inductive PlayCaller := FromAttach | FromManifest.

Inductive PlayOutcome :=
| Resolved
| Rejected (name : string).

(** Calls on the media element, the adapter and the audio graph, in the
    order they are made. *)
Inductive Action :=
| HlsDestroy
| HlsLoadSource (u : string)
| HlsAttachMedia
| AudioPause
| AudioSetCrossOrigin (v : string)
| AudioRemoveCrossOrigin
| AudioSetSrc (u : string)
| AudioLoad
| AudioPlay
| NewAudioContext
| CreateMediaElementSource
| DrawLive
| DrawSynthetic.

Record World := mkWorld {
  props : Props;
  hooks : Hooks;                 (* latest state, seen by the next render *)
  refs : Refs;
  crossOrigin : option string;   (* the element's crossOrigin attribute *)
  errListener : option nat;      (* stage closed over by the registered
                                    'error'/'canplay'/'waiting' listeners *)
  drawLoop : option bool;        (* isCorsBlocked closed over by the running
                                    requestAnimationFrame loop *)
  pending : list PlayCaller;     (* in-flight play requests *)
  committed : option Render;     (* the render of the last commit *)
  log : list Action
}.

Definition snapshot (w : World) : Render := mkRender (props w) (hooks w).

(** ** A state monad over [World] *)

Definition M (A : Type) : Type := World -> A * World.

Definition ret {A} (a : A) : M A := fun w => (a, w).
Definition bind {A B} (m : M A) (k : A -> M B) : M B :=
  fun w => let (a, w') := m w in k a w'.
Definition exec {A} (m : M A) (w : World) : World := snd (m w).

Declare Scope player_scope.
Delimit Scope player_scope with player.
Notation "m1 ;; m2" := (bind m1 (fun _ => m2))
  (at level 61, right associativity) : player_scope.
Notation "x <- m1 ;; m2" := (bind m1 (fun x => m2))
  (at level 61, m1 at next level, right associativity) : player_scope.
Local Open Scope player_scope.

Definition skip : M unit := ret tt.
Definition when (b : bool) (m : M unit) : M unit := if b then m else skip.

Definition modifyHooks (f : Hooks -> Hooks) : M unit := fun w =>
  (tt, mkWorld (props w) (f (hooks w)) (refs w) (crossOrigin w) (errListener w)
               (drawLoop w) (pending w) (committed w) (log w)).
Definition modifyProps (f : Props -> Props) : M unit := fun w =>
  (tt, mkWorld (f (props w)) (hooks w) (refs w) (crossOrigin w) (errListener w)
               (drawLoop w) (pending w) (committed w) (log w)).
Definition modifyRefs (f : Refs -> Refs) : M unit := fun w =>
  (tt, mkWorld (props w) (hooks w) (f (refs w)) (crossOrigin w) (errListener w)
               (drawLoop w) (pending w) (committed w) (log w)).
Definition putCrossOrigin (v : option string) : M unit := fun w =>
  (tt, mkWorld (props w) (hooks w) (refs w) v (errListener w)
               (drawLoop w) (pending w) (committed w) (log w)).
Definition putErrListener (v : option nat) : M unit := fun w =>
  (tt, mkWorld (props w) (hooks w) (refs w) (crossOrigin w) v
               (drawLoop w) (pending w) (committed w) (log w)).
Definition putDrawLoop (v : option bool) : M unit := fun w =>
  (tt, mkWorld (props w) (hooks w) (refs w) (crossOrigin w) (errListener w)
               v (pending w) (committed w) (log w)).
Definition putPending (v : list PlayCaller) : M unit := fun w =>
  (tt, mkWorld (props w) (hooks w) (refs w) (crossOrigin w) (errListener w)
               (drawLoop w) v (committed w) (log w)).
Definition putCommitted (v : option Render) : M unit := fun w =>
  (tt, mkWorld (props w) (hooks w) (refs w) (crossOrigin w) (errListener w)
               (drawLoop w) (pending w) v (log w)).
Definition emit (a : Action) : M unit := fun w =>
  (tt, mkWorld (props w) (hooks w) (refs w) (crossOrigin w) (errListener w)
               (drawLoop w) (pending w) (committed w) (log w ++ [a])).
Definition get {A} (f : World -> A) : M A := fun w => (f w, w).

(** The state setters.  A setter queues an update and the values the running
    closure reads stay those of its render; here the update lands in [hooks]
    at once and closures read their [Render]. *)
Definition setRetryStage (f : nat -> nat) : M unit :=
  modifyHooks (fun h => mkHooks (f (retryStage h)) (error h) (isBuffering h) (isCorsBlocked h)).
Definition setError (e : option PlayerError) : M unit :=
  modifyHooks (fun h => mkHooks (retryStage h) e (isBuffering h) (isCorsBlocked h)).
Definition setIsBuffering (b : bool) : M unit :=
  modifyHooks (fun h => mkHooks (retryStage h) (error h) b (isCorsBlocked h)).
Definition setIsCorsBlocked (b : bool) : M unit :=
  modifyHooks (fun h => mkHooks (retryStage h) (error h) (isBuffering h) b).

Definition setHlsRef (b : bool) : M unit :=
  modifyRefs (fun r => mkRefs b (audioCtxRef r) (analyserRef r) (sourceRef r)).
Definition setSourceRef (b : bool) : M unit :=
  modifyRefs (fun r => mkRefs (hlsRef r) (audioCtxRef r) (analyserRef r) b).
Definition setAudioCtxRef (b : bool) : M unit :=
  modifyRefs (fun r => mkRefs (hlsRef r) b (analyserRef r) (sourceRef r)).
Definition setAnalyserRef (b : bool) : M unit :=
  modifyRefs (fun r => mkRefs (hlsRef r) (audioCtxRef r) b (sourceRef r)).

(** [App]: [togglePlay], and [playStation], which keeps the current station
    object when the chosen station has its identity. *)
Definition togglePlay : M unit :=
  modifyProps (fun p => mkProps (station p) (negb (isPlaying p))).

Definition uuidOf (s : option Station) : option string :=
  match s with Some x => Some (stationuuid x) | None => None end.

Definition optStringEqb (a b : option string) : bool :=
  match a, b with
  | Some x, Some y => String.eqb x y
  | None, None => true
  | _, _ => false
  end.

Definition playStation (s : Station) : M unit :=
  modifyProps (fun p =>
    if optStringEqb (uuidOf (station p)) (Some (stationuuid s))
    then mkProps (station p) true
    else mkProps (Some s) true).

(** ** Handlers of the six-stage player *)

Definition hasError (r : Render) : bool :=
  match error (r_hooks r) with Some _ => true | None => false end.

(** [safePlay] up to its [await]: the guard, then [audio.play()].  The
    promise stays in flight until the host settles it. *)
Definition safePlay (r : Render) (caller : PlayCaller) : M unit :=
  if negb (isPlaying (r_props r)) || hasError r then skip
  else emit AudioPlay ;;
       p <- get pending ;;
       putPending (p ++ [caller]).

(** [safePlay] after its [await]: the name of the error it rethrows, if any.
    An 'AbortError' is swallowed. *)
Definition safePlayResume (o : PlayOutcome) : M (option string) :=
  match o with
  | Resolved => setError None ;; ret None
  | Rejected name =>
      if negb (String.eqb name "AbortError") then ret (Some name) else ret None
  end.

(** What each caller chains on the promise [safePlay] returns. *)
Definition onSafePlayRejected (caller : PlayCaller) : M unit :=
  match caller with
  | FromAttach => setRetryStage S
  | FromManifest => skip
  end.

Definition handleManualRetry (r : Render) (onTogglePlay : M unit) : M unit :=
  setRetryStage (fun _ => 0) ;;
  setError None ;;
  setIsBuffering true ;;
  when (negb (isPlaying (r_props r))) onTogglePlay.

(** The failure the 'error' listener reports once the stages are used up;
    [src] is [audio.src] and [code] is [audio.error?.code]. *)
Definition failureOf (e : Env) (src : string) (code : option nat) : PlayerError :=
  if String.eqb (protocol e) "https:" && startsWith src "http://"
  then mkError "Security Block: Insecure stream." ACCESS
  else match code with
       | Some c =>
           if Nat.eqb c 2 then mkError "Network error: Connection failed." NETWORK
           else if Nat.eqb c 3 then mkError "Format unsupported." DECODE
           else mkError "Station offline or format incompatible." OFFLINE
       | None => mkError "This frequency is unreachable." UNKNOWN
       end.

(** The 'error' listener; [stage] is the [retryStage] its closure holds. *)
Definition handlePlaybackError (e : Env) (stage : nat)
    (src : string) (code : option nat) : M unit :=
  if Nat.leb 5 stage then
    setIsBuffering false ;;
    setError (Some (failureOf e src code))
  else setRetryStage S.

Definition handleCanPlay : M unit := setIsBuffering false ;; setError None.
Definition handleWaiting : M unit := setIsBuffering true.

(** hls.js error types. *)
Inductive HlsErrorType :=
| NETWORK_ERROR | MEDIA_ERROR | KEY_SYSTEM_ERROR | MUX_ERROR | OTHER_ERROR.

(** The [Hls.Events.ERROR] callback of the six-stage player. *)
Definition hlsOnError (fatal : bool) (ty : HlsErrorType) : M unit :=
  when fatal (setRetryStage S).

(** The [Hls.Events.MANIFEST_PARSED] callback. *)
Definition hlsOnManifestParsed (r : Render) : M unit :=
  when (isPlaying (r_props r)) (safePlay r FromManifest).

(** [initAudioContext]: the [try] body until the first throw, then the
    [catch].  The closing [resume()] of a suspended context returns a
    promise and touches none of the state kept here. *)
Definition initAudioContext (e : Env) : M unit :=
  ctx <- get (fun w => audioCtxRef (refs w)) ;;
  if ctx then skip
  else
    emit NewAudioContext ;;
    if ctxThrows e then setIsCorsBlocked true
    else
      src <- get (fun w => sourceRef (refs w)) ;;
      if negb src && tapThrows e then
        emit CreateMediaElementSource ;;
        setIsCorsBlocked true
      else
        when (negb src) (emit CreateMediaElementSource ;; setSourceRef true) ;;
        setAudioCtxRef true ;;
        setAnalyserRef true ;;
        setIsCorsBlocked false.

(** One animation frame of [draw]; [blocked] is the [isCorsBlocked] of the
    render that started the loop. *)
Definition draw (blocked : bool) : M unit :=
  an <- get (fun w => analyserRef (refs w)) ;;
  if an && negb blocked then emit DrawLive else emit DrawSynthetic.

(** ** Effects, in the order the component declares them *)

(** The visualizer effect, deps [[isPlaying, error, isCorsBlocked]].  Its
    previous cleanup cancels the running frame loop; [draw()] paints one
    frame at once and schedules the next ones. *)
Definition visualizerEffect (e : Env) (r : Render) : M unit :=
  putDrawLoop None ;;
  match station (r_props r) with
  | None => skip
  | Some _ =>
      if isPlaying (r_props r) && negb (hasError r) then
        when (negb (isCorsBlocked (r_hooks r))) (initAudioContext e) ;;
        draw (isCorsBlocked (r_hooks r)) ;;
        putDrawLoop (Some (isCorsBlocked (r_hooks r)))
      else skip
  end.

(** The source-attach effect, deps
    [[station, retryStage, isPlaying, getUrlForStage, safePlay]]. *)
Definition attachEffect (e : Env) (r : Render) : M unit :=
  match station (r_props r) with
  | None => skip
  | Some s =>
      let stage := retryStage (r_hooks r) in
      h <- get (fun w => hlsRef (refs w)) ;;
      when h (emit HlsDestroy ;; setHlsRef false) ;;
      emit AudioPause ;;
      setIsBuffering true ;;
      (if Nat.leb 3 stage
       then emit AudioRemoveCrossOrigin ;; putCrossOrigin None
       else emit (AudioSetCrossOrigin "anonymous") ;;
            putCrossOrigin (Some "anonymous")) ;;
      emit (AudioSetSrc "") ;;
      let streamUrl := getUrlForStage e s stage in
      if includes streamUrl ".m3u8" && hlsSupported e && Nat.eqb stage 0 then
        emit (HlsLoadSource streamUrl) ;;
        emit HlsAttachMedia ;;
        setHlsRef true
      else
        emit (AudioSetSrc streamUrl) ;;
        emit AudioLoad ;;
        when (isPlaying (r_props r)) (safePlay r FromAttach)
  end.

(** The listener effect, deps [[retryStage]]: the previous listeners are
    removed, and new ones are added when the element exists. *)
Definition listenerEffect (r : Render) : M unit :=
  match station (r_props r) with
  | None => putErrListener None
  | Some _ => putErrListener (Some (retryStage (r_hooks r)))
  end.

(** The reset effect, deps [[station?.stationuuid]]. *)
Definition resetEffect : M unit :=
  setRetryStage (fun _ => 0) ;; setError None.

(** ** Commits

    After a render, the effects whose dependencies changed since the last
    commit run in declaration order, each reading the values of that render;
    the updates they queue are seen by the next render.  Dependencies are
    compared by content, where React compares with [Object.is]: a failure
    object set anew with the content it had is taken as unchanged.  This
    leaves out one re-run of the visualizer and attach effects after a
    failure is reported again with the message it had: a re-run that starts
    no frame loop and plays nothing, but pauses, assigns the stage's URL
    again and sets [isBuffering].  Stage, failure, listeners and the
    adapter are as in the component. *)

Definition stationEqb (a b : Station) : bool :=
  String.eqb (stationuuid a) (stationuuid b) &&
  String.eqb (url a) (url b) &&
  String.eqb (url_resolved a) (url_resolved b).

Definition optStationEqb (a b : option Station) : bool :=
  match a, b with
  | Some x, Some y => stationEqb x y
  | None, None => true
  | _, _ => false
  end.

Definition errorTypeEqb (a b : ErrorType) : bool :=
  match a, b with
  | NETWORK, NETWORK | DECODE, DECODE | ACCESS, ACCESS
  | OFFLINE, OFFLINE | UNKNOWN, UNKNOWN => true
  | _, _ => false
  end.

Definition optErrorEqb (a b : option PlayerError) : bool :=
  match a, b with
  | Some x, Some y =>
      String.eqb (message x) (message y) && errorTypeEqb (type x) (type y)
  | None, None => true
  | _, _ => false
  end.

Definition hooksEqb (a b : Hooks) : bool :=
  Nat.eqb (retryStage a) (retryStage b) &&
  optErrorEqb (error a) (error b) &&
  Bool.eqb (isBuffering a) (isBuffering b) &&
  Bool.eqb (isCorsBlocked a) (isCorsBlocked b).

Definition sameVisualizerDeps (q r : Render) : bool :=
  Bool.eqb (isPlaying (r_props q)) (isPlaying (r_props r)) &&
  optErrorEqb (error (r_hooks q)) (error (r_hooks r)) &&
  Bool.eqb (isCorsBlocked (r_hooks q)) (isCorsBlocked (r_hooks r)).

(** [safePlay] is a [useCallback] over [[isPlaying, error]]. *)
Definition sameAttachDeps (q r : Render) : bool :=
  optStationEqb (station (r_props q)) (station (r_props r)) &&
  Nat.eqb (retryStage (r_hooks q)) (retryStage (r_hooks r)) &&
  Bool.eqb (isPlaying (r_props q)) (isPlaying (r_props r)) &&
  optErrorEqb (error (r_hooks q)) (error (r_hooks r)).

Definition sameListenerDeps (q r : Render) : bool :=
  Nat.eqb (retryStage (r_hooks q)) (retryStage (r_hooks r)).

Definition sameResetDeps (q r : Render) : bool :=
  optStringEqb (uuidOf (station (r_props q))) (uuidOf (station (r_props r))).

Definition changed (same : Render -> Render -> bool)
    (last : option Render) (r : Render) : bool :=
  match last with
  | None => true
  | Some q => negb (same q r)
  end.

(** The effects of one commit; [last] is the render of the previous commit
    and [r] the current one. *)
Definition commitBody (e : Env) (last : option Render) (r : Render) : M unit :=
  when (changed sameVisualizerDeps last r) (visualizerEffect e r) ;;
  when (changed sameAttachDeps last r) (attachEffect e r) ;;
  when (changed sameListenerDeps last r) (listenerEffect r) ;;
  when (changed sameResetDeps last r) resetEffect ;;
  putCommitted (Some r).

Definition commit (e : Env) : M unit :=
  r <- get snapshot ;;
  last <- get committed ;;
  commitBody e last r.

(** Render and commit until the effects queue no further update. *)
Fixpoint settle (fuel : nat) (e : Env) (w : World) : World :=
  match fuel with
  | O => w
  | S n =>
      let w' := exec (commit e) w in
      if hooksEqb (hooks w') (hooks w) then w' else settle n e w'
  end.

(** ** Events *)

Inductive Event :=
| PlayStation (s : Station)                  (* App.playStation *)
| TogglePlay                                 (* App.togglePlay *)
| ManualRetry                                (* the TUNER RESET button *)
| NativeError (src : string) (code : option nat)   (* 'error' on the element *)
| CanPlay                                    (* 'canplay' *)
| Waiting                                    (* 'waiting', 'stalled' *)
| HlsError (fatal : bool) (ty : HlsErrorType)
| ManifestParsed
| PlaySettled (i : nat) (o : PlayOutcome)    (* the i-th in-flight play() *)
| Frame.                                     (* requestAnimationFrame *)

Fixpoint removeNth {A} (i : nat) (l : list A) : list A :=
  match i, l with
  | _, [] => []
  | O, _ :: t => t
  | S j, x :: t => x :: removeNth j t
  end.

(** The render whose closures the registered callbacks hold. *)
Definition closure (w : World) : Render :=
  match committed w with
  | Some r => r
  | None => snapshot w
  end.

Definition onPlaySettled (i : nat) (o : PlayOutcome) : M unit :=
  p <- get pending ;;
  match nth_error p i with
  | None => skip
  | Some caller =>
      putPending (removeNth i p) ;;
      thrown <- safePlayResume o ;;
      match thrown with
      | Some _ => onSafePlayRejected caller
      | None => skip
      end
  end.

Definition handle (e : Env) (ev : Event) : M unit :=
  r <- get closure ;;
  match ev with
  | PlayStation s => playStation s
  | TogglePlay => togglePlay
  | ManualRetry =>
      (* the button is rendered only while [error] is set *)
      when (hasError r) (handleManualRetry r togglePlay)
  | NativeError src code =>
      l <- get errListener ;;
      match l with
      | Some stage => handlePlaybackError e stage src code
      | None => skip
      end
  | CanPlay =>
      l <- get errListener ;;
      match l with Some _ => handleCanPlay | None => skip end
  | Waiting =>
      l <- get errListener ;;
      match l with Some _ => handleWaiting | None => skip end
  | HlsError fatal ty =>
      h <- get (fun w => hlsRef (refs w)) ;;
      when h (hlsOnError fatal ty)
  | ManifestParsed =>
      h <- get (fun w => hlsRef (refs w)) ;;
      when h (hlsOnManifestParsed r)
  | PlaySettled i o => onPlaySettled i o
  | Frame =>
      d <- get drawLoop ;;
      match d with Some blocked => draw blocked | None => skip end
  end.

Definition renderBudget : nat := 4.

Definition step (e : Env) (w : World) (ev : Event) : World :=
  settle renderBudget e (exec (handle e ev) w).

(** A run: each event comes with what the host answers while it is handled. *)
Fixpoint run (w : World) (tr : list (Env * Event)) : World :=
  match tr with
  | [] => w
  | (e, ev) :: rest => run (step e w ev) rest
  end.

(** The station identity seen by the last commit is the current one: the
    world is inside one station session. *)
Definition inSession (w : World) : bool :=
  match committed w with
  | Some q => optStringEqb (uuidOf (station (r_props q))) (uuidOf (station (props w)))
  | None => false
  end.

(** [App] mounts the player with no station and playback off; the first
    commit finds no element and does nothing. *)
Definition unmounted : World :=
  mkWorld (mkProps None false) (mkHooks 0 None false false)
          (mkRefs false false false false) None None None [] None [].

Definition init (e : Env) : World := settle renderBudget e unmounted.

(** ** The three-stage player (components/RadioPlayer.tsx)

    Its resolver and its error handlers are embedded: the [Hls.Events.ERROR]
    callback, the [catch] of the play request and the [handlePlaybackError]
    they fall back to, all closures of the source effect run for
    [retryStage].  The source effect itself is not: what a handler returns
    here is the state of the next render, and the effect, which runs again
    when the failure changes, starts with [setError(null)]. *)

Module ThreeStage.

Record State := mkState {
  retryStage : nat;
  error : option string;
  isBuffering : bool
}.

(** Calls on the hls.js instance. *)
Inductive HlsCall := StartLoad | RecoverMediaError.

Definition displayMsg (e : Env) (streamUrl : string) (code : option nat) : string :=
  if String.eqb (protocol e) "https:" && startsWith streamUrl "http://"
  then "Insecure stream blocked. Try the direct link."
  else match code with
       | Some 3 => "Decode error: Format not supported."
       | Some 4 => "Station offline or address changed."
       | _ => "Stream unreachable."
       end.

(** [stage] is the [retryStage] of the closure; the functional update reads
    the latest state. *)
Definition handlePlaybackError (e : Env) (stage : nat) (streamUrl : string)
    (code : option nat) (st : State) : State :=
  if Nat.ltb stage 2 then mkState (S (retryStage st)) (error st) (isBuffering st)
  else mkState (retryStage st) (Some (displayMsg e streamUrl code)) false.

Definition hlsOnError (e : Env) (stage : nat) (streamUrl : string)
    (code : option nat) (fatal : bool) (ty : HlsErrorType) (st : State)
    : State * list HlsCall :=
  if fatal then
    match ty with
    | NETWORK_ERROR => (st, [StartLoad])
    | MEDIA_ERROR => (st, [RecoverMediaError])
    | _ => (handlePlaybackError e stage streamUrl code st, [])
    end
  else (st, []).

(** The resolver of the three-stage player. *)
Definition getUrlForStage (e : Env) (s : Station) (stage : nat) : string :=
  let baseUrl := if Nat.eqb stage 2 then url s
                 else orElse (url_resolved s) (url s) in
  if Nat.eqb stage 0 && startsWith baseUrl "http://"
     && String.eqb (protocol e) "https:"
  then replace baseUrl "http://" "https://" else baseUrl.

(** [safePlay().catch(handlePlaybackError)]: [safePlay] rethrows what is
    not an 'AbortError'. *)
Definition onPlayRejected (e : Env) (stage : nat) (streamUrl : string)
    (code : option nat) (name : string) (st : State) : State :=
  if String.eqb name "AbortError" then st
  else handlePlaybackError e stage streamUrl code st.

(** What the closures of one run of the source effect are told: the 'error'
    event of the element, the rejection of the play request, an error of
    the adapter.  [code] is [audio.error?.code] at that moment. *)
Inductive Signal :=
| NativeFailure (code : option nat)
| PlayRejection (name : string) (code : option nat)
| AdapterFailure (fatal : bool) (ty : HlsErrorType) (code : option nat).

Definition signal (e : Env) (stage : nat) (streamUrl : string)
    (sg : Signal) (st : State) : State :=
  match sg with
  | NativeFailure code => handlePlaybackError e stage streamUrl code st
  | PlayRejection name code => onPlayRejected e stage streamUrl code name st
  | AdapterFailure fatal ty code =>
      fst (hlsOnError e stage streamUrl code fatal ty st)
  end.

(** The signals that arrive during one render, in their order: every
    handler reads the [retryStage] and the [streamUrl] of that render, and
    its updates land on the latest state. *)
Definition deliver (e : Env) (stage : nat) (streamUrl : string)
    (l : list Signal) (st : State) : State :=
  fold_left (fun st sg => signal e stage streamUrl sg st) l st.

End ThreeStage.

(** ** Predicates used by the proofs *)

(** A computation keeps a property of the world. *)
Definition preserves {A} (P : World -> Prop) (m : M A) : Prop :=
  forall w, P w -> P (snd (m w)).

(** Stage, failure status and props are as given. *)
Definition Keeps (k : nat) (x : option PlayerError) (p : Props) (w : World) : Prop :=
  retryStage (hooks w) = k /\ error (hooks w) = x /\ props w = p.

Definition Buffering (w : World) : Prop := isBuffering (hooks w) = true.

Definition Blocked (w : World) : Prop := isCorsBlocked (hooks w) = true.

(** How many times the construction of the audio graph was started. *)
Fixpoint tapCalls (l : list Action) : nat :=
  match l with
  | [] => 0
  | NewAudioContext :: t => S (tapCalls t)
  | CreateMediaElementSource :: t => S (tapCalls t)
  | _ :: t => tapCalls t
  end.

Definition TapCount (n : nat) (w : World) : Prop := tapCalls (log w) = n.

(** The last commit and the current station are as given. *)
Definition SessionIs (q : option Render) (st : option Station) (w : World) : Prop :=
  committed w = q /\ station (props w) = st.

(** The last commit saw exactly the current props and state. *)
Definition settled (w : World) : Prop := committed w = Some (snapshot w).

(** The analysis flag before a run and after each of its events. *)
Fixpoint flags (w : World) (tr : list (Env * Event)) : list bool :=
  isCorsBlocked (hooks w) ::
  match tr with
  | [] => []
  | (e, ev) :: rest => flags (step e w ev) rest
  end.

(** The three error events of the player. *)
Definition isErrorEvent (ev : Event) : bool :=
  match ev with
  | NativeError _ _ | HlsError _ _ | PlaySettled _ (Rejected _) => true
  | _ => false
  end.

(** ** The station lists of [App]

    [App] keeps the listed stations, the favorites, the recently played
    stations and the identities voted for; the player only gets
    [currentStation] and [isPlaying]. *)

Module App.

(** The fields of [Station] that the list logic of [App] reads or writes. *)
Record Station := mkStation {
  stationuuid : string;
  votes : N;
  clickcount : N
}.

Record State := mkState {
  stations : list Station;
  favorites : list Station;
  recentlyPlayed : list Station;
  votedIds : list string        (* a Set, in insertion order *)
}.

Definition MAX_RECENT : nat := 10.

(** The two partial updates [App] passes to [updateStationStats]. *)
Inductive Updates :=
| SetVotes (v : N)
| SetClickcount (c : N).

(** [{ ...s, ...updates }] *)
Definition spread (s : Station) (u : Updates) : Station :=
  match u with
  | SetVotes v => mkStation (stationuuid s) v (clickcount s)
  | SetClickcount c => mkStation (stationuuid s) (votes s) c
  end.

Definition updateList (uuid : string) (u : Updates) (l : list Station) : list Station :=
  map (fun s => if String.eqb (stationuuid s) uuid then spread s u else s) l.

Definition updateStationStats (uuid : string) (u : Updates) (st : State) : State :=
  mkState (updateList uuid u (stations st)) (updateList uuid u (favorites st))
          (updateList uuid u (recentlyPlayed st)) (votedIds st).

Definition isFav (l : list Station) (uuid : string) : bool :=
  existsb (fun s => String.eqb (stationuuid s) uuid) l.

Definition without (uuid : string) (l : list Station) : list Station :=
  filter (fun s => negb (String.eqb (stationuuid s) uuid)) l.

(** The updater of [toggleFavorite]. *)
Definition toggleFavorite (station : Station) (prev : list Station) : list Station :=
  if isFav prev (stationuuid station) then without (stationuuid station) prev
  else prev ++ [station].

(** The updater of [playStation] on the recently played stations. *)
Definition pushRecent (station : Station) (prev : list Station) : list Station :=
  firstn MAX_RECENT (station :: without (stationuuid station) prev).

(** [playStation], on the lists: the click is counted in every list first,
    then the station handed in goes to the head of the recent ones. *)
Definition playStation (station : Station) (st : State) : State :=
  let st1 := updateStationStats (stationuuid station)
               (SetClickcount (clickcount station + 1)) st in
  mkState (stations st1) (favorites st1)
          (pushRecent station (recentlyPlayed st1)) (votedIds st1).

(** [Set.has], [Set.add], [Set.delete] *)
Definition has (ids : list string) (x : string) : bool :=
  existsb (String.eqb x) ids.
Definition add (ids : list string) (x : string) : list string :=
  if has ids x then ids else ids ++ [x].
Definition delete (ids : list string) (x : string) : list string :=
  filter (fun y => negb (String.eqb x y)) ids.

(** [handleVote] up to its [await]: nothing for a station already voted
    for, else the vote is shown at once. *)
Definition handleVote (station : Station) (st : State) : State :=
  if has (votedIds st) (stationuuid station) then st
  else
    let st1 := updateStationStats (stationuuid station)
                 (SetVotes (votes station + 1)) st in
    mkState (stations st1) (favorites st1) (recentlyPlayed st1)
            (add (votedIds st1) (stationuuid station)).

(** [handleVote] after its [await]: a refused vote is taken back. *)
Definition handleVoteSettled (station : Station) (ok : bool) (st : State) : State :=
  if ok then st
  else
    let st1 := updateStationStats (stationuuid station)
                 (SetVotes (votes station)) st in
    mkState (stations st1) (favorites st1) (recentlyPlayed st1)
            (delete (votedIds st1) (stationuuid station)).

(** The identities of a list, in order. *)
Definition ids (l : list Station) : list string := map stationuuid l.

End App.

(** ** Further predicates used by the proofs *)

(** The cross-origin attribute the attach effect leaves for a stage. *)
Definition corsPolicy (stage : nat) : option string :=
  if Nat.leb 3 stage then None else Some "anonymous".

(** What the last commit registered is what the world holds: the listeners
    close over its stage, an adapter lives only for its stage 0, the
    element has the policy of its stage, and the frame loop was started by
    it. *)
Definition InSync (w : World) : Prop :=
  (station (props w) = None -> hlsRef (refs w) = false) /\
  (errListener w <> None -> station (props w) <> None) /\
  match committed w with
  | None => True
  | Some q =>
      (forall k, errListener w = Some k -> k = retryStage (r_hooks q)) /\
      (hlsRef (refs w) = true -> retryStage (r_hooks q) = 0) /\
      (station (r_props q) <> None ->
         crossOrigin w = corsPolicy (retryStage (r_hooks q))) /\
      (forall b, drawLoop w = Some b ->
         isPlaying (r_props q) = true /\ hasError q = false /\
         b = isCorsBlocked (r_hooks q))
  end.

(** The adapter as the log shows it: [Some live] after a well-formed
    sequence of calls, [None] once an adapter is created while one lives,
    or a dead one is used. *)
Definition adapterStep (live : bool) (a : Action) : option bool :=
  match a with
  | HlsLoadSource _ => if live then None else Some true
  | HlsAttachMedia => if live then Some true else None
  | HlsDestroy => if live then Some false else None
  | _ => Some live
  end.

Fixpoint adapterState (live : bool) (l : list Action) : option bool :=
  match l with
  | [] => Some live
  | a :: t =>
      match adapterStep live a with
      | Some live' => adapterState live' t
      | None => None
      end
  end.

(** How many play requests were made. *)
Fixpoint playCalls (l : list Action) : nat :=
  match l with
  | [] => 0
  | AudioPlay :: t => S (playCalls t)
  | _ :: t => playCalls t
  end.

(** A play request settled with a rejection that [safePlay] rethrows. *)
Definition isRejectedPlay (ev : Event) : bool :=
  match ev with
  | PlaySettled _ (Rejected name) => negb (String.eqb name "AbortError")
  | _ => false
  end.

Definition calm (tr : list (Env * Event)) : bool :=
  forallb (fun p => negb (isRejectedPlay (snd p))) tr.

(** The signals of the three-stage player that are errors to act on, with
    the code each found on the element: every native error, a play request
    rejected with anything but 'AbortError', and a fatal adapter error that
    is neither a network nor a media error. *)
Definition actedOn (l : list ThreeStage.Signal) : list (option nat) :=
  flat_map (fun sg =>
    match sg with
    | ThreeStage.NativeFailure code => [code]
    | ThreeStage.PlayRejection name code =>
        if String.eqb name "AbortError" then [] else [code]
    | ThreeStage.AdapterFailure true NETWORK_ERROR _ => []
    | ThreeStage.AdapterFailure true MEDIA_ERROR _ => []
    | ThreeStage.AdapterFailure true _ code => [code]
    | ThreeStage.AdapterFailure false _ _ => []
    end) l.

(** [audio.src] as the log shows it: the last URL assigned to the element.
    hls.js hands the element an object URL when it attaches, of which only
    the scheme is kept.  Station URLs are taken to be absolute and in the
    form the element serialises them, so that it gives back what it was
    given. *)
Fixpoint lastSrc (cur : string) (l : list Action) : string :=
  match l with
  | [] => cur
  | AudioSetSrc u :: t => lastSrc u t
  | HlsAttachMedia :: t => lastSrc "blob:" t
  | _ :: t => lastSrc cur t
  end.

Definition elementSrc (w : World) : string := lastSrc "" (log w).

(** Every native error of a run comes with the source the element holds
    when it is heard. *)
Fixpoint heardAtSource (w : World) (tr : list (Env * Event)) : bool :=
  match tr with
  | [] => true
  | (e, ev) :: rest =>
      match ev with
      | NativeError src _ => String.eqb src (elementSrc w)
      | _ => true
      end && heardAtSource (step e w ev) rest
  end.



(** ** Sample inputs *)

Definition envAt (proto : string) (t : N) : Env := mkEnv proto t true false false.

(** A host whose audio graph refuses the element. *)
Definition envTainted : Env := mkEnv "https:" 1700000000000 true false true.

Definition envHttps : Env := envAt "https:" 1700000000000.

Definition demoStation : Station :=
  mkStation "960e57c5-0601-11e8-ae97-52543be04c81"
            "http://stream.example.org:8000/live" "".

Definition otherStation : Station :=
  mkStation "96202d91-0601-11e8-ae97-52543be04c81"
            "http://radio.example.net/stream.mp3"
            "https://cdn.example.net/stream.mp3".

Definition queryStation : Station :=
  mkStation "961b6a1c-0601-11e8-ae97-52543be04c81"
            "http://listen.example.org/stream?sid=1" "".

Definition hlsStation : Station :=
  mkStation "9617a958-0601-11e8-ae97-52543be04c81"
            "https://live.example.com/hls/master.m3u8" "".

Definition secureStation : Station :=
  mkStation "9621d3f4-0601-11e8-ae97-52543be04c81"
            "https://secure.example.org/live" "".

(** The host keeps rejecting the newest play request, as a browser does
    while autoplay is not allowed. *)
Definition blockedPlays (e : Env) (n : nat) : list (Env * Event) :=
  repeat (e, PlaySettled 0 (Rejected "NotAllowedError")) n.

(** The station played from the start, one play request rejected and two
    native errors later, ready at stage 3. *)
Definition playingAtStageThree : World :=
  run (init envHttps)
      [ (envHttps, PlayStation demoStation);
        (envHttps, PlaySettled 0 (Rejected "NotSupportedError"));
        (envHttps, NativeError "https://stream.example.org:8000/live" (Some 4));
        (envHttps, NativeError "http://stream.example.org:8000/live" (Some 4));
        (envHttps, CanPlay) ].

(** The station after every stage failed. *)
Definition failedAtFinalStage : World :=
  run (init envHttps)
      [ (envHttps, PlayStation demoStation);
        (envHttps, PlaySettled 0 (Rejected "NotSupportedError"));
        (envHttps, NativeError "https://stream.example.org:8000/live" (Some 4));
        (envHttps, NativeError "http://stream.example.org:8000/live" (Some 4));
        (envHttps, NativeError "http://stream.example.org:8000/live" (Some 4));
        (envHttps, NativeError "http://stream.example.org:8000/live" (Some 4));
        (envHttps, NativeError "http://stream.example.org:8000/live/;?cb=1700000000000" (Some 2)) ].

(* ================================================================== *)
(** * Properties *)

(** ** Strings *)

Lemma startsWith_split (s p : string) :
  startsWith s p = true -> s = p ++ drop (String.length p) s.
Proof.
  unfold startsWith. revert s.
  induction p as [|c p IH]; intros [|d s]; simpl; try easy.
  destruct (Ascii.ascii_dec c d) as [->|]; [|easy].
  intros H. now rewrite <- (IH s H).
Qed.

Lemma replace_at_start (s pat rep : string) :
  startsWith s pat = true -> replace s pat rep = rep ++ drop (String.length pat) s.
Proof. intros H. destruct s; cbn [replace]; now rewrite H. Qed.

Lemma optStringEqb_refl (a : option string) : optStringEqb a a = true.
Proof. destruct a; simpl; auto using String.eqb_refl. Qed.

Lemma tapCalls_app (l1 l2 : list Action) :
  tapCalls (l1 ++ l2) = tapCalls l1 + tapCalls l2.
Proof.
  induction l1 as [|a l1 IH]; simpl; auto.
  destruct a; simpl; rewrite ?IH; auto.
Qed.

(** ** Reasoning about computations *)

Section Preserves.
Variable P : World -> Prop.

Lemma preserves_ret {A} (a : A) : preserves P (ret a).
Proof. intros w H. exact H. Qed.

Lemma preserves_get {A} (f : World -> A) : preserves P (get f).
Proof. intros w H. exact H. Qed.

Lemma preserves_bind {A B} (m : M A) (k : A -> M B) :
  preserves P m -> (forall a, preserves P (k a)) -> preserves P (bind m k).
Proof.
  intros Hm Hk w H. unfold bind.
  specialize (Hm w H). destruct (m w) as [a w']. exact (Hk a w' Hm).
Qed.

Lemma preserves_when (b : bool) (m : M unit) :
  preserves P m -> preserves P (when b m).
Proof. intros Hm. unfold when. destruct b; [exact Hm | apply preserves_ret]. Qed.
End Preserves.

(** A primitive that leaves the observed fields alone. *)
Ltac pres_prim :=
  solve [
    let w := fresh "w" in
    let H := fresh "H" in
    intros w H;
    cbv [Keeps Buffering Blocked TapCount SessionIs settled] in *;
    cbn in *;
    rewrite ?tapCalls_app; cbn;
    intuition (auto; try congruence; try lia) ].

(** Walk through the structure of a computation. *)
Ltac pres_step :=
  lazymatch goal with
  | |- preserves _ (bind _ _) => apply preserves_bind; [ | intro ]
  | |- preserves _ (ret _) => apply preserves_ret
  | |- preserves _ skip => apply preserves_ret
  | |- preserves _ (get _) => apply preserves_get
  | |- preserves _ (when _ _) => apply preserves_when
  | |- preserves _ (if ?b then _ else _) => destruct b eqn:?
  | |- preserves _ (match ?x with _ => _ end) => destruct x eqn:?
  end.

Ltac unfold_ops :=
  cbv beta iota zeta delta
    [safePlay safePlayResume onSafePlayRejected handleManualRetry
     handlePlaybackError handleCanPlay handleWaiting hlsOnError
     hlsOnManifestParsed initAudioContext draw visualizerEffect attachEffect
     listenerEffect resetEffect onPlaySettled].

Ltac unfold_setters :=
  cbv beta zeta delta
    [setRetryStage setError setIsBuffering setIsCorsBlocked setHlsRef
     setSourceRef setAudioCtxRef setAnalyserRef togglePlay playStation].

Ltac pres :=
  repeat first [ pres_step | progress unfold_ops ];
  try (unfold_setters; pres_prim).

Create HintDb player.

Lemma visualizer_keeps e r k x p : preserves (Keeps k x p) (visualizerEffect e r).
Proof. pres. Qed.

Lemma visualizer_blocked e r :
  isCorsBlocked (r_hooks r) = true -> preserves Blocked (visualizerEffect e r).
Proof. intros Hb. unfold visualizerEffect. rewrite Hb. cbn [negb when]. pres. Qed.

Lemma visualizer_tapCount e r n :
  isCorsBlocked (r_hooks r) = true -> preserves (TapCount n) (visualizerEffect e r).
Proof. intros Hb. unfold visualizerEffect. rewrite Hb. cbn [negb when]. pres. Qed.

Lemma visualizer_buffering e r : preserves Buffering (visualizerEffect e r).
Proof. pres. Qed.

Lemma attach_keeps e r k x p : preserves (Keeps k x p) (attachEffect e r).
Proof. pres. Qed.

Lemma attach_blocked e r : preserves Blocked (attachEffect e r).
Proof. pres. Qed.

Lemma attach_tapCount e r n : preserves (TapCount n) (attachEffect e r).
Proof. pres. Qed.

Lemma attach_buffering e r : preserves Buffering (attachEffect e r).
Proof. pres. Qed.

Lemma listener_keeps r k x p : preserves (Keeps k x p) (listenerEffect r).
Proof. pres. Qed.

Lemma listener_blocked r : preserves Blocked (listenerEffect r).
Proof. pres. Qed.

Lemma listener_tapCount r n : preserves (TapCount n) (listenerEffect r).
Proof. pres. Qed.

Lemma listener_buffering r : preserves Buffering (listenerEffect r).
Proof. pres. Qed.

Lemma reset_blocked : preserves Blocked resetEffect.
Proof. pres. Qed.

Lemma reset_tapCount n : preserves (TapCount n) resetEffect.
Proof. pres. Qed.

Lemma reset_buffering : preserves Buffering resetEffect.
Proof. pres. Qed.

#[export] Hint Resolve visualizer_keeps visualizer_blocked visualizer_tapCount
  visualizer_buffering attach_keeps attach_blocked attach_tapCount
  attach_buffering listener_keeps listener_blocked listener_tapCount
  listener_buffering reset_blocked reset_tapCount reset_buffering : player.

(** ** Commits and re-rendering *)

Lemma commit_unfold e w :
  commit e w = commitBody e (committed w) (snapshot w) w.
Proof. reflexivity. Qed.

Lemma inSession_no_reset w :
  inSession w = true -> changed sameResetDeps (committed w) (snapshot w) = false.
Proof.
  unfold inSession, changed, sameResetDeps.
  destruct (committed w) as [q|]; [|discriminate].
  cbn. intros ->. reflexivity.
Qed.

Ltac commit_pres :=
  unfold commitBody;
  repeat (apply preserves_bind; [ | intro ]);
  try apply preserves_when;
  eauto with player;
  try pres_prim.

Lemma commitBody_keeps e last r k x p :
  changed sameResetDeps last r = false ->
  preserves (Keeps k x p) (commitBody e last r).
Proof.
  intros H. unfold commitBody. rewrite H. cbn [when].
  commit_pres.
Qed.

Lemma commitBody_buffering e last r : preserves Buffering (commitBody e last r).
Proof. commit_pres. Qed.

Lemma commitBody_blocked e last r :
  isCorsBlocked (r_hooks r) = true -> preserves Blocked (commitBody e last r).
Proof. intros H. commit_pres. Qed.

Lemma commitBody_tapCount e last r n :
  isCorsBlocked (r_hooks r) = true -> preserves (TapCount n) (commitBody e last r).
Proof. intros H. commit_pres. Qed.

Lemma commitBody_props e last r p :
  preserves (fun w => props w = p) (commitBody e last r).
Proof.
  unfold commitBody.
  repeat (apply preserves_bind; [ | intro ]); try apply preserves_when.
  all: pres.
Qed.

Lemma commitBody_committed e last r w :
  committed (snd (commitBody e last r w)) = Some r.
Proof.
  unfold commitBody, bind.
  repeat match goal with
  | |- context [let (_, _) := ?m in _] => destruct m
  end.
  reflexivity.
Qed.

Lemma commit_props e w : props (exec (commit e) w) = props w.
Proof.
  unfold exec. rewrite commit_unfold.
  now apply (commitBody_props e (committed w) (snapshot w) (props w)).
Qed.

Lemma commit_committed e w : committed (exec (commit e) w) = Some (snapshot w).
Proof. unfold exec. rewrite commit_unfold. apply commitBody_committed. Qed.

Lemma commit_inSession e w : inSession (exec (commit e) w) = true.
Proof.
  unfold inSession. rewrite commit_committed, commit_props. cbn.
  apply optStringEqb_refl.
Qed.

Lemma keeps_self (w : World) :
  Keeps (retryStage (hooks w)) (error (hooks w)) (props w) w.
Proof. repeat split. Qed.

Lemma commit_keeps e w k x p :
  inSession w = true -> Keeps k x p w -> Keeps k x p (exec (commit e) w).
Proof.
  intros Hs. unfold exec. rewrite commit_unfold.
  apply commitBody_keeps. now apply inSession_no_reset.
Qed.

Lemma commit_buffering e w : Buffering w -> Buffering (exec (commit e) w).
Proof. unfold exec. rewrite commit_unfold. apply commitBody_buffering. Qed.

Lemma commit_blocked e w : Blocked w -> Blocked (exec (commit e) w).
Proof.
  intros Hb. unfold exec. rewrite commit_unfold.
  now apply commitBody_blocked.
Qed.

Lemma commit_tapCount e w n :
  Blocked w -> TapCount n w -> TapCount n (exec (commit e) w).
Proof.
  intros Hb. unfold exec. rewrite commit_unfold.
  now apply commitBody_tapCount.
Qed.

Lemma settle_S n e w :
  settle (S n) e w =
  if hooksEqb (hooks (exec (commit e) w)) (hooks w) then exec (commit e) w
  else settle n e (exec (commit e) w).
Proof. reflexivity. Qed.

Lemma settle_props n e w : props (settle n e w) = props w.
Proof.
  revert w. induction n as [|n IH]; intros w; simpl; auto.
  destruct (hooksEqb _ _); [|rewrite IH]; apply commit_props.
Qed.

Lemma settle_keeps n e w k x p :
  inSession w = true -> Keeps k x p w -> Keeps k x p (settle n e w).
Proof.
  revert w. induction n as [|n IH]; intros w Hs Hk; simpl; auto.
  destruct (hooksEqb _ _).
  - now apply commit_keeps.
  - apply IH; [apply commit_inSession | now apply commit_keeps].
Qed.

Lemma settle_inSession n e w :
  inSession w = true -> inSession (settle n e w) = true.
Proof.
  revert w. induction n as [|n IH]; intros w Hs; simpl; auto.
  destruct (hooksEqb _ _); [|apply IH]; apply commit_inSession.
Qed.

Lemma settle_buffering n e w : Buffering w -> Buffering (settle n e w).
Proof.
  revert w. induction n as [|n IH]; intros w Hb; simpl; auto.
  destruct (hooksEqb _ _); [|apply IH]; now apply commit_buffering.
Qed.

Lemma settle_blocked n e w : Blocked w -> Blocked (settle n e w).
Proof.
  revert w. induction n as [|n IH]; intros w Hb; simpl; auto.
  destruct (hooksEqb _ _); [|apply IH]; now apply commit_blocked.
Qed.

Lemma settle_tapCount n e w c :
  Blocked w -> TapCount c w -> TapCount c (settle n e w).
Proof.
  revert w. induction n as [|n IH]; intros w Hb Hc; simpl; auto.
  destruct (hooksEqb _ _).
  - now apply commit_tapCount.
  - apply IH; [now apply commit_blocked | now apply commit_tapCount].
Qed.

(** ** Re-rendering comes to rest

    The effects queue updates only in the first two commits after an event:
    the third commit finds the attach, listener and reset dependencies
    unchanged and the flag, if it changed, set.  The render budget is never
    used up. *)

Lemma optErrorEqb_refl (a : option PlayerError) : optErrorEqb a a = true.
Proof.
  destruct a as [[m t]|]; cbn; [|reflexivity].
  rewrite String.eqb_refl. now destruct t.
Qed.

Lemma optStationEqb_refl (a : option Station) : optStationEqb a a = true.
Proof.
  destruct a as [[u v r]|]; cbn; [|reflexivity].
  unfold stationEqb. cbn. now rewrite !String.eqb_refl.
Qed.

Lemma errorTypeEqb_eq (a b : ErrorType) : errorTypeEqb a b = true -> a = b.
Proof. destruct a, b; cbn; congruence. Qed.

Lemma optErrorEqb_eq (a b : option PlayerError) : optErrorEqb a b = true -> a = b.
Proof.
  destruct a as [[m t]|], b as [[m' t']|]; cbn; try congruence.
  intros H. apply andb_prop in H. destruct H as [Hm Ht].
  apply String.eqb_eq in Hm. apply errorTypeEqb_eq in Ht. congruence.
Qed.

Lemma hooksEqb_eq (a b : Hooks) : hooksEqb a b = true -> a = b.
Proof.
  destruct a as [s x f c], b as [s' x' f' c']. unfold hooksEqb. cbn.
  intros H.
  apply andb_prop in H. destruct H as [H Hc].
  apply andb_prop in H. destruct H as [H Hf].
  apply andb_prop in H. destruct H as [Hs Hx].
  apply Nat.eqb_eq in Hs. apply optErrorEqb_eq in Hx.
  apply Bool.eqb_prop in Hf. apply Bool.eqb_prop in Hc. congruence.
Qed.

Lemma visualizer_hooks e r h :
  isCorsBlocked (r_hooks r) = true ->
  preserves (fun w => hooks w = h) (visualizerEffect e r).
Proof. intros Hb. unfold visualizerEffect. rewrite Hb. cbn [negb when]. pres. Qed.

(** A commit that ends unchanged leaves a world at rest. *)
Lemma commit_at_rest e w :
  hooksEqb (hooks (exec (commit e) w)) (hooks w) = true ->
  settled (exec (commit e) w).
Proof.
  intros H. apply hooksEqb_eq in H. unfold settled.
  rewrite commit_committed. unfold snapshot. now rewrite commit_props, H.
Qed.

(** Inside a session the second commit changes no state. *)
Lemma third_commit_is_idle e w :
  inSession w = true ->
  hooks (exec (commit e) (exec (commit e) w)) = hooks (exec (commit e) w).
Proof.
  intros Hs.
  set (w2 := exec (commit e) w).
  destruct (commit_keeps e w _ _ _ Hs (keeps_self w)) as (Hst & Her & Hpr).
  fold w2 in Hst, Her, Hpr.
  assert (Hc2 : committed w2 = Some (snapshot w)) by apply commit_committed.
  unfold exec at 1. rewrite commit_unfold, Hc2. unfold commitBody.
  assert (Ha : changed sameAttachDeps (Some (snapshot w)) (snapshot w2) = false).
  { cbn. unfold sameAttachDeps. cbn. rewrite Hst, Her, Hpr.
    now rewrite optStationEqb_refl, Nat.eqb_refl, Bool.eqb_reflx, optErrorEqb_refl. }
  assert (Hl : changed sameListenerDeps (Some (snapshot w)) (snapshot w2) = false).
  { cbn. unfold sameListenerDeps. cbn. now rewrite Hst, Nat.eqb_refl. }
  assert (Hr : changed sameResetDeps (Some (snapshot w)) (snapshot w2) = false).
  { cbn. unfold sameResetDeps. cbn. now rewrite Hpr, optStringEqb_refl. }
  rewrite Ha, Hl, Hr. cbn [when].
  assert (Hv : preserves (fun v => hooks v = hooks w2)
                 (when (changed sameVisualizerDeps (Some (snapshot w)) (snapshot w2))
                       (visualizerEffect e (snapshot w2)))).
  { destruct (isCorsBlocked (hooks w2)) eqn:Hb2.
    - apply preserves_when. now apply visualizer_hooks.
    - assert (Hb : isCorsBlocked (hooks w) = false).
      { destruct (isCorsBlocked (hooks w)) eqn:Hb; [|reflexivity].
        pose proof (commit_blocked e w Hb) as Hb'. unfold Blocked in Hb'.
        fold w2 in Hb'. congruence. }
      assert (Hd : changed sameVisualizerDeps (Some (snapshot w)) (snapshot w2) = false).
      { cbn. unfold sameVisualizerDeps. cbn. rewrite Hpr, Her, Hb, Hb2.
        now rewrite Bool.eqb_reflx, optErrorEqb_refl. }
      rewrite Hd. apply preserves_ret. }
  assert (Hall : preserves (fun v => hooks v = hooks w2)
            (when (changed sameVisualizerDeps (Some (snapshot w)) (snapshot w2))
                  (visualizerEffect e (snapshot w2)) ;;
             skip ;; skip ;; skip ;; putCommitted (Some (snapshot w2)))).
  { repeat (apply preserves_bind; [ | intro ]); try exact Hv; pres. }
  apply (Hall w2). reflexivity.
Qed.

Lemma hooksEqb_refl (h : Hooks) : hooksEqb h h = true.
Proof.
  destruct h as [s x f c]. unfold hooksEqb. cbn.
  now rewrite Nat.eqb_refl, optErrorEqb_refl, !Bool.eqb_reflx.
Qed.

Lemma settle_at_rest_in_session n e w :
  inSession w = true -> settled (settle (S (S n)) e w).
Proof.
  intros Hs. rewrite settle_S.
  destruct (hooksEqb (hooks (exec (commit e) w)) (hooks w)) eqn:H1.
  - exact (commit_at_rest e w H1).
  - rewrite settle_S.
    pose proof (third_commit_is_idle e w Hs) as Hi.
    assert (H2 : hooksEqb (hooks (exec (commit e) (exec (commit e) w)))
                          (hooks (exec (commit e) w)) = true).
    { rewrite Hi. apply hooksEqb_refl. }
    rewrite H2. exact (commit_at_rest e _ H2).
Qed.

(** Whatever the world an event leaves behind, re-rendering within the
    render budget ends in a world at rest. *)
Theorem settle_at_rest e w : settled (settle renderBudget e w).
Proof.
  change renderBudget with (S (S (S 1))). rewrite settle_S.
  destruct (hooksEqb (hooks (exec (commit e) w)) (hooks w)) eqn:H1.
  - exact (commit_at_rest e w H1).
  - apply settle_at_rest_in_session, commit_inSession.
Qed.

Lemma step_at_rest e w ev : settled (step e w ev).
Proof. unfold step. exact (settle_at_rest e _). Qed.

Lemma init_at_rest e : settled (init e).
Proof. unfold init. exact (settle_at_rest e unmounted). Qed.

(** Every world of a run from the mounted player is at rest, hence inside
    one station session. *)
Lemma run_at_rest w tr : settled w -> settled (run w tr).
Proof.
  revert w. induction tr as [|[e ev] tr IH]; intros w Hw; cbn [run]; auto.
  apply IH, step_at_rest.
Qed.

Lemma settled_inSession w : settled w -> inSession w = true.
Proof.
  unfold settled, inSession. intros ->. cbn. apply optStringEqb_refl.
Qed.

Lemma reachable_inSession e tr : inSession (run (init e) tr) = true.
Proof. apply settled_inSession, run_at_rest, init_at_rest. Qed.

(** ** Event handlers *)

Lemma handle_blocked e ev : preserves Blocked (handle e ev).
Proof. unfold handle. pres. Qed.

Lemma handle_tapCount e ev n : preserves (TapCount n) (handle e ev).
Proof. unfold handle. pres. Qed.

(** ** The stream resolver *)

Lemma str_append_assoc (a b c : string) : (a ++ b) ++ c = a ++ (b ++ c).
Proof. induction a as [|x a IH]; simpl; [reflexivity | now rewrite IH]. Qed.

Lemma upgradeHttps_shape (e : Env) (stage : nat) (u : string) :
  upgradeHttps e stage u = u \/
  exists rest, u = "http://" ++ rest /\ upgradeHttps e stage u = "https://" ++ rest.
Proof.
  unfold upgradeHttps.
  destruct (Nat.leb stage 1); cbn [andb]; auto.
  destruct (startsWith u "http://") eqn:Hp; cbn [andb]; auto.
  destruct (String.eqb (protocol e) "https:"); auto.
  right. exists (drop 7 u). split.
  - exact (startsWith_split u "http://" Hp).
  - exact (replace_at_start u "http://" "https://" Hp).
Qed.

Lemma upgradeHttps_late (e : Env) (stage : nat) (u : string) :
  2 <= stage -> upgradeHttps e stage u = u.
Proof.
  intros H. unfold upgradeHttps.
  destruct (Nat.leb_spec stage 1); [lia | reflexivity].
Qed.

Lemma baseUrl_choice (s : Station) (stage : nat) :
  baseUrl s stage = url s \/ baseUrl s stage = url_resolved s.
Proof.
  unfold baseUrl, orElse.
  destruct (_ || _); auto.
  destruct (url_resolved s); auto.
Qed.

(** C4 (amended): the resolver reads, besides the station and the stage,
    the protocol of the hosting page at stages 0 and 1 and the clock at
    stage 5, and nothing else: two evaluations for the same station and stage
    return the same URL whenever those readings agree.  At stages 2, 3 and 4
    the URL depends on the station and the stage alone. *)
Theorem resolver_inputs (e1 e2 : Env) (s : Station) (stage : nat) :
  (stage <= 1 -> protocol e1 = protocol e2) ->
  (stage = 5 -> now e1 = now e2) ->
  getUrlForStage e1 s stage = getUrlForStage e2 s stage.
Proof.
  intros Hp Hn. unfold getUrlForStage.
  assert (Hu : upgradeHttps e1 stage (baseUrl s stage)
               = upgradeHttps e2 stage (baseUrl s stage)).
  { unfold upgradeHttps. destruct (Nat.leb_spec stage 1) as [Hle|Hgt].
    - now rewrite (Hp Hle).
    - reflexivity. }
  rewrite Hu.
  destruct (Nat.eqb_spec stage 5) as [H5|_]; [|reflexivity].
  unfold legacyMutation. now rewrite (Hn H5).
Qed.

Lemma resolver_inputs_witness :
  getUrlForStage (envAt "https:" 1700000000000) demoStation 3
  = getUrlForStage (envAt "http:" 1700000000999) demoStation 3.
Proof.
  apply (resolver_inputs (envAt "https:" 1700000000000)
                         (envAt "http:" 1700000000999) demoStation 3).
  - intros H. lia.
  - intros H. discriminate H.
Defined.

(** C4 as stated fails: at stage 5 the same station and stage give two
    different URLs at two clock readings. *)
Lemma resolver_not_a_function_of_station_and_stage :
  getUrlForStage (envAt "https:" 1700000000000) demoStation 5
  <> getUrlForStage (envAt "https:" 1700000000001) demoStation 5.
Proof. vm_compute. discriminate. Qed.

Lemma includes_mark_app (u v : string) :
  includes (u ++ v) "?" = includes u "?" || includes v "?".
Proof.
  induction u as [|c u IH].
  - cbn [append]. destruct v; reflexivity.
  - cbn [append includes]. rewrite IH.
    unfold startsWith. cbn [String.prefix].
    destruct (Ascii.ascii_dec "?"%char c).
    + destruct (u ++ v), u; reflexivity.
    + reflexivity.
Qed.

(** C9 (amended): the legacy mutation is applied at stage 5 and at no
    other stage.  Away from stage 5 the result is one of the station's two
    URLs, at most with its [http://] scheme rewritten to [https://], nothing
    appended.  At stage 5 the result is the station's [url], then the
    trailing separator ([;] after a final [/], [/;] otherwise) unless the URL
    already ends in [;] or already carries a [?], then the [cb=] parameter
    holding the clock reading, joined with [&] when the URL carries a [?]
    and with [?] otherwise. *)
Theorem legacy_mutation_only_at_final_stage (e : Env) (s : Station) (stage : nat) :
  (stage <> 5 ->
     exists b, (b = url s \/ b = url_resolved s) /\
       (getUrlForStage e s stage = b \/
        exists rest, b = "http://" ++ rest /\
                     getUrlForStage e s stage = "https://" ++ rest)) /\
  (stage = 5 ->
     getUrlForStage e s stage =
       url s
       ++ (if endsWith (url s) ";" || includes (url s) "?" then ""
           else if endsWith (url s) "/" then ";" else "/;")
       ++ (if includes (url s) "?" then "&" else "?")
       ++ "cb=" ++ ofNumber (now e)).
Proof.
  split.
  - intros H. unfold getUrlForStage.
    destruct (Nat.eqb_spec stage 5) as [H5|_]; [contradiction|].
    exists (baseUrl s stage). split; [apply baseUrl_choice|].
    apply upgradeHttps_shape.
  - intros ->. unfold getUrlForStage. cbn [Nat.eqb].
    rewrite upgradeHttps_late by lia.
    change (baseUrl s 5) with (url s).
    unfold legacyMutation.
    destruct (endsWith (url s) ";") eqn:He; cbn [negb andb orb]; [reflexivity|].
    destruct (includes (url s) "?") eqn:Hq; cbn [negb].
    + now rewrite Hq.
    + destruct (endsWith (url s) "/");
        rewrite includes_mark_app, Hq, !str_append_assoc; reflexivity.
Qed.

Lemma legacy_mutation_only_at_final_stage_witness :
  (exists b, (b = url demoStation \/ b = url_resolved demoStation) /\
     (getUrlForStage (envAt "https:" 1700000000000) demoStation 0 = b \/
      exists rest, b = "http://" ++ rest /\
        getUrlForStage (envAt "https:" 1700000000000) demoStation 0
        = "https://" ++ rest)) /\
  getUrlForStage (envAt "https:" 1700000000000) demoStation 5
  = "http://stream.example.org:8000/live/;?cb=1700000000000".
Proof.
  split.
  - apply (proj1 (legacy_mutation_only_at_final_stage
                    (envAt "https:" 1700000000000) demoStation 0)).
    discriminate.
  - apply (proj2 (legacy_mutation_only_at_final_stage
                    (envAt "https:" 1700000000000) demoStation 5)).
    reflexivity.
Defined.

(** C9 as stated fails: for a station whose URL carries a query, stage 5
    appends the cache-busting parameter and no trailing separator. *)
Lemma query_url_gets_no_trailing_separator :
  getUrlForStage envHttps queryStation 5
  = "http://listen.example.org/stream?sid=1&cb=1700000000000" /\
  includes (getUrlForStage envHttps queryStation 5) ";" = false.
Proof. vm_compute. split; reflexivity. Qed.

(** ** Source attach *)

(** C10: on every source attach the element's cross-origin policy is fixed
    by the retry stage alone: below stage 3 the attach sets
    [crossOrigin = "anonymous"] and does not remove the attribute, from
    stage 3 on it removes the attribute and does not set it. *)
Theorem attach_cors_policy_by_stage
    (e : Env) (r : Render) (s : Station) (w : World) :
  station (r_props r) = Some s ->
  let stage := retryStage (r_hooks r) in
  let w' := exec (attachEffect e r) w in
  exists l, log w' = (log w ++ l)%list /\
    (stage <= 2 ->
       crossOrigin w' = Some "anonymous" /\
       In (AudioSetCrossOrigin "anonymous") l /\ ~ In AudioRemoveCrossOrigin l) /\
    (3 <= stage ->
       crossOrigin w' = None /\
       In AudioRemoveCrossOrigin l /\ forall v, ~ In (AudioSetCrossOrigin v) l).
Proof.
  intros Hs stage w'. subst w'. unfold attachEffect. rewrite Hs.
  fold stage.
  cbv beta zeta delta [exec bind get when skip ret safePlay].
  destruct (hlsRef (refs w));
  destruct (Nat.leb_spec 3 stage) as [H3|H3];
  destruct (includes (getUrlForStage e s stage) ".m3u8" && hlsSupported e
            && Nat.eqb stage 0);
  destruct (isPlaying (r_props r));
  destruct (hasError r);
  cbn; rewrite <- ?app_assoc; cbn;
  (eexists; split; [reflexivity|]);
  (split; intros Hst; [try lia | try lia]);
  cbn; intuition (try discriminate; try congruence).
Qed.

Lemma attach_cors_policy_by_stage_witness :
  let r := mkRender (mkProps (Some demoStation) true) (mkHooks 4 None false false) in
  let w := playingAtStageThree in
  let w' := exec (attachEffect envHttps r) w in
  exists l, log w' = (log w ++ l)%list /\
    (4 <= 2 ->
       crossOrigin w' = Some "anonymous" /\
       In (AudioSetCrossOrigin "anonymous") l /\ ~ In AudioRemoveCrossOrigin l) /\
    (3 <= 4 ->
       crossOrigin w' = None /\
       In AudioRemoveCrossOrigin l /\ forall v, ~ In (AudioSetCrossOrigin v) l).
Proof.
  apply (attach_cors_policy_by_stage envHttps
    (mkRender (mkProps (Some demoStation) true) (mkHooks 4 None false false))
    demoStation playingAtStageThree).
  reflexivity.
Defined.

(** ** Steps inside one station session *)

Lemma handle_session e ev q st :
  (forall s, ev <> PlayStation s) -> preserves (SessionIs q st) (handle e ev).
Proof.
  intros H. destruct ev; try (now exfalso; eapply H); unfold handle; pres.
Qed.

Lemma handle_inSession e ev w :
  (forall s, ev <> PlayStation s) ->
  inSession w = true -> inSession (exec (handle e ev) w) = true.
Proof.
  intros H Hs.
  destruct (handle_session e ev (committed w) (station (props w)) H w) as [Hc Hp].
  { split; reflexivity. }
  unfold inSession, exec in *. now rewrite Hc, Hp.
Qed.

Lemma step_keeps e ev w k x p :
  (forall s, ev <> PlayStation s) ->
  inSession w = true ->
  Keeps k x p (exec (handle e ev) w) -> Keeps k x p (step e w ev).
Proof.
  intros H Hs Hk. unfold step.
  apply settle_keeps; [now apply handle_inSession | exact Hk].
Qed.

Lemma step_stage e ev w :
  (forall s, ev <> PlayStation s) ->
  inSession w = true ->
  retryStage (hooks (step e w ev)) = retryStage (hooks (exec (handle e ev) w)) /\
  error (hooks (step e w ev)) = error (hooks (exec (handle e ev) w)).
Proof.
  intros H Hs.
  destruct (step_keeps e ev w _ _ _ H Hs (keeps_self (exec (handle e ev) w)))
    as (H1 & H2 & _).
  now split.
Qed.

(** ** Play requests *)

Lemma onPlaySettled_abort i w :
  hooks (exec (onPlaySettled i (Rejected "AbortError")) w) = hooks w.
Proof.
  unfold onPlaySettled, exec, bind, get.
  destruct (nth_error (pending w) i); reflexivity.
Qed.

Lemma onPlaySettled_stage i o w :
  retryStage (hooks (exec (onPlaySettled i o) w)) <> retryStage (hooks w) ->
  exists name, o = Rejected name /\ name <> "AbortError".
Proof.
  unfold onPlaySettled, exec, bind, get.
  destruct (nth_error (pending w) i) as [caller|]; cbn; [|congruence].
  destruct o as [|name]; cbn; [congruence|].
  destruct (String.eqb_spec name "AbortError") as [->|Hn]; cbn; [congruence|].
  intros _. now exists name.
Qed.

Lemma handle_playSettled e i o w :
  exec (handle e (PlaySettled i o)) w = exec (onPlaySettled i o) w.
Proof. reflexivity. Qed.

(** C3: a play request rejected with 'AbortError' (superseded by a newer
    request) leaves the retry stage and the failed status as they were; a
    settled play request that changes the stage was rejected with another
    error. *)
Theorem superseded_play_is_benign (e : Env) (w : World) (i : nat) :
  inSession w = true ->
  (let w' := step e w (PlaySettled i (Rejected "AbortError")) in
   retryStage (hooks w') = retryStage (hooks w) /\
   error (hooks w') = error (hooks w)) /\
  (forall o,
     retryStage (hooks (step e w (PlaySettled i o))) <> retryStage (hooks w) ->
     exists name, o = Rejected name /\ name <> "AbortError").
Proof.
  intros Hs.
  assert (Hev : forall o s, PlaySettled i o <> PlayStation s) by discriminate.
  split.
  - destruct (step_stage e (PlaySettled i (Rejected "AbortError")) w (Hev _) Hs)
      as [H1 H2].
    cbv zeta. rewrite H1, H2, handle_playSettled, onPlaySettled_abort. now split.
  - intros o Hne.
    destruct (step_stage e (PlaySettled i o) w (Hev _) Hs) as [H1 _].
    rewrite H1, handle_playSettled in Hne.
    now apply (onPlaySettled_stage i o w).
Qed.

Lemma superseded_play_is_benign_witness :
  let w := run (init envHttps) [(envHttps, PlayStation demoStation)] in
  inSession w = true /\
  nth_error (pending w) 0 = Some FromAttach /\
  (let w' := step envHttps w (PlaySettled 0 (Rejected "AbortError")) in
   retryStage (hooks w') = retryStage (hooks w) /\
   error (hooks w') = error (hooks w)).
Proof.
  split; [reflexivity|]. split; [reflexivity|].
  apply (proj1 (superseded_play_is_benign envHttps
    (run (init envHttps) [(envHttps, PlayStation demoStation)]) 0 eq_refl)).
Defined.

(** ** The 'error' listener *)

Lemma handle_nativeError_final e w stage src code :
  errListener w = Some stage -> 5 <= stage ->
  Keeps (retryStage (hooks w)) (Some (failureOf e src code)) (props w)
        (exec (handle e (NativeError src code)) w).
Proof.
  intros Hl H5. unfold handle, exec, bind, get. rewrite Hl.
  unfold handlePlaybackError.
  destruct (Nat.leb_spec 5 stage); [|lia].
  repeat split.
Qed.

Lemma failureOf_type e src code :
  type (failureOf e src code) =
  if String.eqb (protocol e) "https:" && startsWith src "http://" then ACCESS
  else match code with
       | None => UNKNOWN
       | Some 2 => NETWORK
       | Some 3 => DECODE
       | Some _ => OFFLINE
       end.
Proof.
  unfold failureOf.
  destruct (_ && _); [reflexivity|].
  destruct code as [c|]; [|reflexivity].
  destruct c as [|[|[|[|c]]]]; reflexivity.
Qed.

(** C2 (amended): once the 'error' listener holds a stage of 5 or more, a
    native error event leaves the stage where it is and sets a failed
    status, whose reason is ACCESS when the page is served over https and
    the element's source is an http:// URL; otherwise UNKNOWN when the
    element holds no native error, NETWORK for code 2, DECODE for code 3 and
    OFFLINE for any other code. *)
Theorem final_stage_failure_reason
    (e : Env) (w : World) (stage : nat) (src : string) (code : option nat) :
  inSession w = true -> errListener w = Some stage -> 5 <= stage ->
  let w' := step e w (NativeError src code) in
  retryStage (hooks w') = retryStage (hooks w) /\
  exists err, error (hooks w') = Some err /\
    type err =
      if String.eqb (protocol e) "https:" && startsWith src "http://" then ACCESS
      else match code with
           | None => UNKNOWN
           | Some 2 => NETWORK
           | Some 3 => DECODE
           | Some _ => OFFLINE
           end.
Proof.
  intros Hs Hl H5 w'.
  assert (Hev : forall s, NativeError src code <> PlayStation s) by discriminate.
  destruct (step_keeps e _ w _ _ _ Hev Hs
              (handle_nativeError_final e w stage src code Hl H5))
    as (H1 & H2 & _).
  split; [exact H1|].
  exists (failureOf e src code). split; [exact H2|apply failureOf_type].
Qed.

Lemma final_stage_failure_reason_witness :
  let w := run (init envHttps)
               ((envHttps, PlayStation secureStation) :: blockedPlays envHttps 5) in
  let w' := step envHttps w (NativeError (elementSrc w) (Some 2)) in
  retryStage (hooks w') = retryStage (hooks w) /\
  exists err, error (hooks w') = Some err /\ type err = NETWORK.
Proof.
  apply (final_stage_failure_reason envHttps
    (run (init envHttps)
         ((envHttps, PlayStation secureStation) :: blockedPlays envHttps 5))
    5
    (elementSrc
       (run (init envHttps)
            ((envHttps, PlayStation secureStation) :: blockedPlays envHttps 5)))
    (Some 2)).
  - reflexivity.
  - reflexivity.
  - lia.
Defined.

(** C2 as stated fails, twice.  A station with an https URL reaches the
    final stage on an https page; the element holds the stage-5 URL the
    player gave it, and an 'error' event that finds no [audio.error] on the
    element is reported as UNKNOWN, not OFFLINE.  A station with an http URL
    reaches the final stage on the same page; its stage-5 URL is http, and a
    native error with the network code 2 is reported as ACCESS, not
    NETWORK. *)
Lemma no_native_error_reports_unknown :
  let w := run (init envHttps)
               ((envHttps, PlayStation secureStation) :: blockedPlays envHttps 5) in
  let w' := step envHttps w (NativeError (elementSrc w) None) in
  let v := run (init envHttps)
               ((envHttps, PlayStation demoStation) :: blockedPlays envHttps 5) in
  let v' := step envHttps v (NativeError (elementSrc v) (Some 2)) in
  (errListener w = Some 5 /\
   elementSrc w = "https://secure.example.org/live/;?cb=1700000000000" /\
   elementSrc w = getUrlForStage envHttps secureStation 5 /\
   option_map type (error (hooks w')) = Some UNKNOWN /\
   option_map type (error (hooks w')) <> Some OFFLINE) /\
  (errListener v = Some 5 /\
   elementSrc v = "http://stream.example.org:8000/live/;?cb=1700000000000" /\
   elementSrc v = getUrlForStage envHttps demoStation 5 /\
   option_map type (error (hooks v')) = Some ACCESS /\
   option_map type (error (hooks v')) <> Some NETWORK).
Proof. vm_compute. repeat split; discriminate. Qed.

(** ** Manual reset *)

Lemma handle_manualRetry e w :
  settled w -> hasError (snapshot w) = true ->
  let w1 := exec (handle e ManualRetry) w in
  Keeps 0 None (mkProps (station (props w)) true) w1 /\ Buffering w1.
Proof.
  intros Hc He. unfold handle, exec, bind, get, closure.
  rewrite Hc, He. unfold Keeps, Buffering.
  destruct (isPlaying (props w)) eqn:Hp; cbn; rewrite ?Hp; cbn.
  - repeat split. destruct (props w); cbn in *; now subst.
  - repeat split. now rewrite Hp.
Qed.

(** C8: the manual reset, invoked in a failed state, puts the retry stage
    back to 0, clears the failed status, turns buffering on and leaves the
    playing intent on (turning it on if it was off), for the same station. *)
Theorem manual_reset_restarts (e : Env) (w : World) :
  settled w -> hasError (snapshot w) = true ->
  let w' := step e w ManualRetry in
  retryStage (hooks w') = 0 /\
  error (hooks w') = None /\
  isBuffering (hooks w') = true /\
  isPlaying (props w') = true /\
  station (props w') = station (props w).
Proof.
  intros Hc He w'.
  destruct (handle_manualRetry e w Hc He) as [Hk Hb].
  assert (Hev : forall s, ManualRetry <> PlayStation s) by discriminate.
  pose proof (settled_inSession w Hc) as Hs.
  destruct (step_keeps e ManualRetry w _ _ _ Hev Hs Hk) as (H1 & H2 & H3).
  assert (H4 : Buffering w').
  { apply settle_buffering. exact Hb. }
  subst w'. rewrite H3. cbn. auto.
Qed.

Lemma manual_reset_restarts_witness :
  let w := step envHttps failedAtFinalStage TogglePlay in
  let w' := step envHttps w ManualRetry in
  isPlaying (props w) = false /\
  retryStage (hooks w) = 5 /\
  retryStage (hooks w') = 0 /\
  error (hooks w') = None /\
  isBuffering (hooks w') = true /\
  isPlaying (props w') = true /\
  station (props w') = station (props w).
Proof.
  split; [reflexivity|]. split; [reflexivity|].
  apply (manual_reset_restarts envHttps (step envHttps failedAtFinalStage TogglePlay)).
  - reflexivity.
  - reflexivity.
Defined.

(** ** The analysis flag *)

Lemma step_blocked e w ev :
  Blocked w ->
  Blocked (step e w ev) /\ tapCalls (log (step e w ev)) = tapCalls (log w).
Proof.
  intros Hb. unfold step, exec.
  pose proof (handle_blocked e ev w Hb) as H1.
  pose proof (handle_tapCount e ev (tapCalls (log w)) w eq_refl) as H2.
  split.
  - now apply settle_blocked.
  - now apply settle_tapCount.
Qed.

Lemma run_blocked w tr :
  Blocked w ->
  Blocked (run w tr) /\ tapCalls (log (run w tr)) = tapCalls (log w).
Proof.
  revert w. induction tr as [|[e ev] tr IH]; intros w Hb; cbn [run].
  - now split.
  - destruct (step_blocked e w ev Hb) as [H1 H2].
    destruct (IH _ H1) as [H3 H4]. split; [exact H3 | congruence].
Qed.

Lemma flags_blocked w tr :
  Blocked w -> flags w tr = repeat true (S (length tr)).
Proof.
  revert w. induction tr as [|[e ev] tr IH]; intros w Hb; cbn [flags].
  - now rewrite Hb.
  - rewrite Hb, (IH _ (proj1 (step_blocked e w ev Hb))). reflexivity.
Qed.

(** A throw while the audio graph is built sets the flag. *)
Lemma tap_throw_sets_flag e w :
  audioCtxRef (refs w) = false ->
  ctxThrows e = true \/ (sourceRef (refs w) = false /\ tapThrows e = true) ->
  Blocked (exec (initAudioContext e) w).
Proof.
  intros Hc Ht. unfold initAudioContext, exec, bind, get. rewrite Hc. cbn.
  destruct (ctxThrows e); [reflexivity|].
  destruct Ht as [Ht|[Hs Ht]]; [discriminate|].
  cbn. rewrite Hs, Ht. reflexivity.
Qed.

(** C7: along any run of the player the cross-origin-blocked flag reads
    false for some steps and true from then on: it turns from false to true
    at most once and never back.  Once it is true, no event (a frame
    included) starts the construction of the audio graph again. *)
Theorem analysis_mode_is_sticky (w : World) (tr : list (Env * Event)) :
  (exists a b, flags w tr = (repeat false a ++ repeat true b)%list) /\
  (isCorsBlocked (hooks w) = true ->
   isCorsBlocked (hooks (run w tr)) = true /\
   tapCalls (log (run w tr)) = tapCalls (log w)).
Proof.
  split.
  - revert w. induction tr as [|[e ev] tr IH]; intros w.
    + cbn [flags]. destruct (isCorsBlocked (hooks w)).
      * now exists 0, 1.
      * now exists 1, 0.
    + destruct (isCorsBlocked (hooks w)) eqn:Hb.
      * exists 0, (S (length ((e, ev) :: tr))). now apply flags_blocked.
      * cbn [flags]. rewrite Hb.
        destruct (IH (step e w ev)) as (a & b & Hab).
        exists (S a), b. rewrite Hab. reflexivity.
  - intros Hb. now apply run_blocked.
Qed.

Lemma analysis_mode_is_sticky_witness :
  let w := run (init envTainted) [(envTainted, PlayStation demoStation)] in
  let tr := [ (envHttps, Frame); (envHttps, TogglePlay); (envHttps, TogglePlay);
              (envHttps, Frame); (envHttps, PlayStation otherStation) ] in
  isCorsBlocked (hooks w) = true /\
  isCorsBlocked (hooks (run w tr)) = true /\
  tapCalls (log (run w tr)) = tapCalls (log w).
Proof.
  split; [reflexivity|].
  apply (proj2 (analysis_mode_is_sticky
    (run (init envTainted) [(envTainted, PlayStation demoStation)])
    [ (envHttps, Frame); (envHttps, TogglePlay); (envHttps, TogglePlay);
      (envHttps, Frame); (envHttps, PlayStation otherStation) ])).
  reflexivity.
Defined.

(** ** Error events and the retry stage *)

Lemma handle_error_event_monotone e ev k :
  isErrorEvent ev = true ->
  preserves (fun w => k <= retryStage (hooks w)) (handle e ev).
Proof.
  intros H. destruct ev; try discriminate H; unfold handle; pres.
Qed.

(** Inside one station session no error event lowers the retry stage. *)
Lemma error_events_never_lower_stage e w ev :
  inSession w = true -> isErrorEvent ev = true ->
  retryStage (hooks w) <= retryStage (hooks (step e w ev)).
Proof.
  intros Hs He.
  assert (Hev : forall s, ev <> PlayStation s).
  { intros s ->. discriminate He. }
  rewrite (proj1 (step_stage e ev w Hev Hs)).
  apply (handle_error_event_monotone e ev (retryStage (hooks w)) He w).
  apply Nat.le_refl.
Qed.

(** The 'error' listener stops at stage 5. *)
Lemma native_error_stays_within_stages e w src code :
  inSession w = true ->
  errListener w = Some (retryStage (hooks w)) ->
  retryStage (hooks w) <= 5 ->
  retryStage (hooks (step e w (NativeError src code))) <= 5.
Proof.
  intros Hs Hl H5.
  assert (Hev : forall s, NativeError src code <> PlayStation s) by discriminate.
  rewrite (proj1 (step_stage e _ w Hev Hs)).
  unfold handle, exec, bind, get. rewrite Hl. unfold handlePlaybackError.
  destruct (Nat.leb_spec 5 (retryStage (hooks w))); cbn; lia.
Qed.

(** The [catch] chained on [safePlay] has no such bound. *)
Lemma rejected_play_always_advances e w i name :
  inSession w = true ->
  nth_error (pending w) i = Some FromAttach ->
  name <> "AbortError" ->
  retryStage (hooks (step e w (PlaySettled i (Rejected name))))
  = S (retryStage (hooks w)) /\
  error (hooks (step e w (PlaySettled i (Rejected name)))) = error (hooks w).
Proof.
  intros Hs Hp Hn.
  assert (Hev : forall s, PlaySettled i (Rejected name) <> PlayStation s)
    by discriminate.
  destruct (step_stage e _ w Hev Hs) as [H1 H2]. rewrite H1, H2.
  unfold handle, onPlaySettled, exec, bind, get. rewrite Hp. cbn.
  destruct (String.eqb_spec name "AbortError"); [contradiction|].
  cbn. now split.
Qed.

(** C1 (the code departs from it): a station is played while the host
    rejects every play request with 'NotAllowedError'.  After five
    rejections the stage is 5, no failure is reported and a play request of
    the source-attach effect is in flight; its rejection moves the stage to
    6 and still reports no failure. *)
Theorem rejected_play_passes_final_stage :
  let w5 := run (init envHttps)
                ((envHttps, PlayStation demoStation) :: blockedPlays envHttps 5) in
  let w6 := step envHttps w5 (PlaySettled 0 (Rejected "NotAllowedError")) in
  retryStage (hooks w5) = 5 /\ error (hooks w5) = None /\
  nth_error (pending w5) 0 = Some FromAttach /\
  retryStage (hooks w6) = 6 /\ error (hooks w6) = None.
Proof. vm_compute. repeat split. Qed.

(** ** Fatal adapter errors *)

(** C5 (amended): in the three-stage player a fatal network error of the
    adapter reloads ([startLoad]) and a fatal media error resets the decode
    pipeline ([recoverMediaError]), neither touching the state, and any other
    fatal error goes to the playback-error handler, which advances the stage
    below stage 2 and reports a failure from stage 2 on.  In the six-stage
    player every fatal error of a live adapter, whatever its class, advances
    the retry stage by one, and its callback asks nothing of the adapter. *)
Theorem adapter_fatal_errors (e : Env) :
  (forall stage streamUrl code st,
     ThreeStage.hlsOnError e stage streamUrl code true NETWORK_ERROR st
       = (st, [ThreeStage.StartLoad]) /\
     ThreeStage.hlsOnError e stage streamUrl code true MEDIA_ERROR st
       = (st, [ThreeStage.RecoverMediaError]) /\
     (forall ty, ty <> NETWORK_ERROR -> ty <> MEDIA_ERROR ->
        let st' := fst (ThreeStage.hlsOnError e stage streamUrl code true ty st) in
        snd (ThreeStage.hlsOnError e stage streamUrl code true ty st) = [] /\
        (stage < 2 ->
           ThreeStage.retryStage st' = S (ThreeStage.retryStage st) /\
           ThreeStage.error st' = ThreeStage.error st) /\
        (2 <= stage ->
           ThreeStage.retryStage st' = ThreeStage.retryStage st /\
           ThreeStage.error st' <> None))) /\
  (forall w ty,
     inSession w = true ->
     hlsRef (refs w) = true ->
     log (exec (handle e (HlsError true ty)) w) = log w /\
     retryStage (hooks (step e w (HlsError true ty))) = S (retryStage (hooks w)) /\
     error (hooks (step e w (HlsError true ty))) = error (hooks w)).
Proof.
  split.
  - intros stage streamUrl code st.
    split; [reflexivity|]. split; [reflexivity|].
    intros ty Hn Hm.
    destruct ty; try congruence; cbn;
      unfold ThreeStage.handlePlaybackError;
      destruct (Nat.ltb_spec stage 2); cbn.
    all: split; [reflexivity|]; split; intros Hst; try lia.
    all: split; try reflexivity; discriminate.
  - intros w ty Hs Hh.
    assert (Hev : forall s, HlsError true ty <> PlayStation s) by discriminate.
    destruct (step_stage e _ w Hev Hs) as [H1 H2]. rewrite H1, H2.
    unfold handle, exec, bind, get. rewrite Hh.
    cbn. repeat split.
Qed.

Lemma adapter_fatal_errors_witness :
  let w := run (init envHttps) [(envHttps, PlayStation hlsStation)] in
  hlsRef (refs w) = true /\
  log (exec (handle envHttps (HlsError true NETWORK_ERROR)) w) = log w /\
  retryStage (hooks (step envHttps w (HlsError true NETWORK_ERROR)))
  = S (retryStage (hooks w)) /\
  error (hooks (step envHttps w (HlsError true NETWORK_ERROR))) = error (hooks w).
Proof.
  split; [reflexivity|].
  apply (proj2 (adapter_fatal_errors envHttps)
           (run (init envHttps) [(envHttps, PlayStation hlsStation)])
           NETWORK_ERROR).
  - reflexivity.
  - reflexivity.
Defined.

(** C5 as stated fails on the six-stage player: a fatal network error of
    the adapter attached at stage 0 moves the player to stage 1. *)
Lemma fatal_network_error_advances_stage :
  let w := run (init envHttps) [(envHttps, PlayStation hlsStation)] in
  hlsRef (refs w) = true /\ retryStage (hooks w) = 0 /\
  retryStage (hooks (step envHttps w (HlsError true NETWORK_ERROR))) = 1.
Proof. vm_compute. repeat split. Qed.

(** ** Station change *)

Lemma sameAttachDeps_uuid q r :
  sameAttachDeps q r = true -> sameResetDeps q r = true.
Proof.
  unfold sameAttachDeps, sameResetDeps, optStationEqb, stationEqb.
  destruct (station (r_props q)) as [a|], (station (r_props r)) as [b|];
    cbn; try reflexivity; try discriminate.
  destruct (String.eqb (stationuuid a) (stationuuid b)); [reflexivity|discriminate].
Qed.

(** The commit that first sees a station of another identity runs the
    source-attach effect for the render it has, with the stage of the
    previous station, and the reset effect after it. *)
Lemma station_change_commit e w q :
  committed w = Some q ->
  sameResetDeps q (snapshot w) = false ->
  let r := snapshot w in
  commit e w =
  (when (changed sameVisualizerDeps (Some q) r) (visualizerEffect e r) ;;
   attachEffect e r ;;
   when (changed sameListenerDeps (Some q) r) (listenerEffect r) ;;
   resetEffect ;;
   putCommitted (Some r)) w.
Proof.
  intros Hc Hu r. rewrite commit_unfold, Hc. fold r. unfold commitBody.
  assert (Ha : changed sameAttachDeps (Some q) r = true).
  { cbn. destruct (sameAttachDeps q r) eqn:Hs; [|reflexivity].
    apply sameAttachDeps_uuid in Hs. subst r. congruence. }
  assert (Hr : changed sameResetDeps (Some q) r = true).
  { cbn. subst r. now rewrite Hu. }
  now rewrite Ha, Hr.
Qed.

Lemma commitBody_resets e last r w :
  changed sameResetDeps last r = true ->
  retryStage (hooks (snd (commitBody e last r w))) = 0 /\
  error (hooks (snd (commitBody e last r w))) = None.
Proof.
  intros H. unfold commitBody. rewrite H. unfold bind.
  do 3 match goal with
  | |- context [let (_, _) := ?m in _] => destruct m
  end.
  cbn. now split.
Qed.

(** A change of station identity ends with stage 0 and no failed status. *)
Lemma station_change_resets e w s :
  (exists q, committed w = Some q /\
     optStringEqb (uuidOf (station (r_props q))) (Some (stationuuid s)) = false) ->
  optStringEqb (uuidOf (station (props w))) (Some (stationuuid s)) = false ->
  let w' := step e w (PlayStation s) in
  retryStage (hooks w') = 0 /\ error (hooks w') = None /\
  station (props w') = Some s.
Proof.
  intros (q & Hc & Hq) Hp w'. subst w'. unfold step.
  set (w1 := exec (handle e (PlayStation s)) w).
  assert (H1 : committed w1 = Some q /\ props w1 = mkProps (Some s) true).
  { subst w1. unfold handle, exec, bind, get, playStation, modifyProps.
    cbn. rewrite Hp. now split. }
  destruct H1 as [Hc1 Hp1].
  assert (Hk : Keeps 0 None (mkProps (Some s) true) (exec (commit e) w1)).
  { unfold exec. rewrite commit_unfold.
    destruct (commitBody_resets e (committed w1) (snapshot w1) w1) as [H0 He].
    - rewrite Hc1. unfold changed, sameResetDeps, snapshot.
      cbn [r_props]. rewrite Hp1. cbn [station uuidOf].
      now rewrite Hq.
    - repeat split; auto.
      rewrite <- Hp1.
      now apply (commitBody_props e (committed w1) (snapshot w1) (props w1)). }
  assert (Hfin : Keeps 0 None (mkProps (Some s) true) (settle renderBudget e w1)).
  { change renderBudget with (S 3). rewrite settle_S.
    destruct (hooksEqb _ _); [exact Hk|].
    apply settle_keeps; [apply commit_inSession | exact Hk]. }
  destruct Hfin as (H0 & He & Hpr). rewrite Hpr. auto.
Qed.

(** C6 (the code departs from it): a station plays at stage 3, or has
    failed at stage 5, and another station is chosen.  The first attach for
    the new station is made with the stage of the old one: the cross-origin
    attribute is removed and the new source is loaded (and played, when no
    failure was standing; with the cache-busting URL, at stage 5) before the
    stage is reset and the failure cleared; a second attach at stage 0
    follows. *)
Theorem station_change_attaches_at_stale_stage :
  (let w := playingAtStageThree in
   let w' := step envHttps w (PlayStation otherStation) in
   retryStage (hooks w) = 3 /\ error (hooks w) = None /\
   log w' =
     (log w ++
      [ AudioPause; AudioRemoveCrossOrigin; AudioSetSrc "";
        AudioSetSrc "https://cdn.example.net/stream.mp3"; AudioLoad; AudioPlay;
        AudioPause; AudioSetCrossOrigin "anonymous"; AudioSetSrc "";
        AudioSetSrc "https://cdn.example.net/stream.mp3"; AudioLoad; AudioPlay ])%list /\
   retryStage (hooks w') = 0 /\ error (hooks w') = None) /\
  (let w := failedAtFinalStage in
   let w' := step envHttps w (PlayStation otherStation) in
   retryStage (hooks w) = 5 /\ error (hooks w) <> None /\
   log w' =
     (log w ++
      [ AudioPause; AudioRemoveCrossOrigin; AudioSetSrc "";
        AudioSetSrc "http://radio.example.net/stream.mp3/;?cb=1700000000000";
        AudioLoad; DrawLive;
        AudioPause; AudioSetCrossOrigin "anonymous"; AudioSetSrc "";
        AudioSetSrc "https://cdn.example.net/stream.mp3"; AudioLoad; AudioPlay ])%list /\
   retryStage (hooks w') = 0 /\ error (hooks w') = None).
Proof. vm_compute. repeat split. discriminate. Qed.

(* ================================================================== *)
(** * Further properties of the code *)

(** ** The resolver *)

Lemma str_append_inv_l (a b c : string) : a ++ b = a ++ c -> b = c.
Proof. induction a as [|x a IH]; simpl; intros H; [exact H|]. injection H. exact IH. Qed.

Lemma to_uint_nonnil (n : N) : N.to_uint n <> Decimal.Nil.
Proof.
  destruct n as [|p]; [discriminate|].
  apply DecimalPos.Unsigned.to_uint_nonnil.
Qed.

Lemma ofNumber_inj (n m : N) : ofNumber n = ofNumber m -> n = m.
Proof.
  unfold ofNumber. intros H.
  apply DecimalN.Unsigned.to_uint_inj.
  assert (Hs : Some (N.to_uint n) = Some (N.to_uint m)).
  { rewrite <- (NilZero.usu (N.to_uint n)) by apply to_uint_nonnil.
    rewrite <- (NilZero.usu (N.to_uint m)) by apply to_uint_nonnil.
    now rewrite H. }
  now injection Hs.
Qed.

(** X1: at stage 5 the cache-busting parameter does its work: for one
    station, two different clock readings give two different URLs. *)
Theorem cache_buster_separates_requests (e1 e2 : Env) (s : Station) :
  now e1 <> now e2 -> getUrlForStage e1 s 5 <> getUrlForStage e2 s 5.
Proof.
  intros Hn Heq. apply Hn. unfold getUrlForStage in Heq. cbn [Nat.eqb] in Heq.
  rewrite !upgradeHttps_late in Heq by lia.
  unfold legacyMutation in Heq.
  apply str_append_inv_l in Heq. apply str_append_inv_l in Heq.
  apply str_append_inv_l in Heq. now apply ofNumber_inj.
Qed.

Lemma cache_buster_separates_requests_witness :
  getUrlForStage (envAt "https:" 1700000000000) queryStation 5
  <> getUrlForStage (envAt "http:" 1700000000250) queryStation 5.
Proof.
  apply (cache_buster_separates_requests
           (envAt "https:" 1700000000000) (envAt "http:" 1700000000250) queryStation).
  discriminate.
Defined.

(** X2: on a page served over https the first two stages never hand the
    element an [http://] URL (no mixed content is requested there). *)
Theorem early_stages_avoid_mixed_content (e : Env) (s : Station) (stage : nat) :
  protocol e = "https:" -> stage <= 1 ->
  startsWith (getUrlForStage e s stage) "http://" = false.
Proof.
  intros Hp Hs. unfold getUrlForStage.
  destruct (Nat.eqb_spec stage 5); [lia|].
  unfold upgradeHttps. rewrite Hp.
  destruct (Nat.leb_spec stage 1); [|lia]. cbn [andb].
  destruct (startsWith (baseUrl s stage) "http://") eqn:Hb; cbn.
  - rewrite (replace_at_start _ _ _ Hb). reflexivity.
  - exact Hb.
Qed.

Lemma early_stages_avoid_mixed_content_witness :
  startsWith (getUrlForStage envHttps demoStation 1) "http://" = false.
Proof.
  apply (early_stages_avoid_mixed_content envHttps demoStation 1).
  - reflexivity.
  - lia.
Defined.

(** ** The station lists of [App] *)

Lemma ids_updateList uuid u l : App.ids (App.updateList uuid u l) = App.ids l.
Proof.
  unfold App.ids, App.updateList. rewrite map_map. apply map_ext.
  intros s. destruct (String.eqb (App.stationuuid s) uuid); [|reflexivity].
  now destruct u.
Qed.

Lemma ids_without uuid l :
  App.ids (App.without uuid l) = filter (fun x => negb (String.eqb x uuid)) (App.ids l).
Proof.
  unfold App.ids, App.without. induction l as [|s l IH]; cbn; [reflexivity|].
  destruct (String.eqb (App.stationuuid s) uuid); cbn; now rewrite IH.
Qed.

Lemma isFav_in l uuid : App.isFav l uuid = true <-> In uuid (App.ids l).
Proof.
  unfold App.isFav, App.ids. rewrite existsb_exists, in_map_iff. split.
  - intros (s & Hs & He). apply String.eqb_eq in He. now exists s.
  - intros (s & He & Hs). exists s. split; [exact Hs|]. now apply String.eqb_eq.
Qed.

Lemma without_absent uuid l : App.isFav l uuid = false -> App.without uuid l = l.
Proof.
  unfold App.isFav, App.without. induction l as [|s l IH]; cbn; [reflexivity|].
  destruct (String.eqb (App.stationuuid s) uuid); cbn; [discriminate|].
  intros H. now rewrite IH.
Qed.

Lemma NoDup_filter {A} (f : A -> bool) (l : list A) : NoDup l -> NoDup (filter f l).
Proof.
  induction 1 as [|x l Hx Hl IH]; cbn; [constructor|].
  destruct (f x); [|exact IH].
  constructor; [|exact IH]. intros Hin. apply filter_In in Hin. tauto.
Qed.

Lemma firstn_incl {A} (n : nat) (l : list A) (x : A) :
  In x (firstn n l) -> In x l.
Proof.
  revert n. induction l as [|y l IH]; intros [|n]; cbn; try tauto.
  intros [H|H]; [now left | right; now apply (IH n)].
Qed.

Lemma map_firstn {A B} (f : A -> B) (n : nat) (l : list A) :
  map f (firstn n l) = firstn n (map f l).
Proof. revert n. induction l as [|y l IH]; intros [|n]; cbn; congruence. Qed.

Lemma NoDup_firstn {A} (n : nat) (l : list A) : NoDup l -> NoDup (firstn n l).
Proof.
  intros H. revert n. induction H as [|x l Hx Hl IH]; intros [|n]; cbn; try constructor.
  - intros Hin. apply Hx. now apply (firstn_incl n).
  - apply IH.
Qed.

Lemma pushRecent_facts (station : App.Station) (prev : list App.Station) :
  hd_error (App.pushRecent station prev) = Some station /\
  length (App.pushRecent station prev) <= 10 /\
  count_occ string_dec (App.ids (App.pushRecent station prev))
            (App.stationuuid station) = 1 /\
  (NoDup (App.ids prev) -> NoDup (App.ids (App.pushRecent station prev))).
Proof.
  unfold App.pushRecent. change App.MAX_RECENT with 10.
  set (l := App.without (App.stationuuid station) prev).
  assert (Hl : ~ In (App.stationuuid station) (App.ids l)).
  { subst l. rewrite ids_without. intros Hin. apply filter_In in Hin.
    destruct Hin as [_ Hin]. now rewrite String.eqb_refl in Hin. }
  split; [reflexivity|]. split; [apply firstn_le_length|]. split.
  - cbn [firstn App.ids map count_occ].
    destruct (string_dec _ _) as [_|Hn]; [|congruence].
    f_equal. apply count_occ_not_In. intros Hin. apply Hl.
    unfold App.ids in *. rewrite in_map_iff in *.
    destruct Hin as (x & Hx & Hin). exists x. split; [exact Hx|].
    now apply (firstn_incl 9).
  - intros Hnd. unfold App.ids. rewrite map_firstn. apply NoDup_firstn.
    cbn [map]. constructor; [exact Hl|].
    subst l. fold (App.ids (App.without (App.stationuuid station) prev)).
    rewrite ids_without. now apply NoDup_filter.
Qed.

(** X3: choosing a station puts it at the head of the recently played
    ones, which never grow beyond ten, hold the station once, and stay
    free of repeated identities if they were. *)
Theorem recently_played_is_a_bounded_mru (station : App.Station) (st : App.State) :
  let st' := App.playStation station st in
  hd_error (App.recentlyPlayed st') = Some station /\
  length (App.recentlyPlayed st') <= 10 /\
  count_occ string_dec (App.ids (App.recentlyPlayed st')) (App.stationuuid station) = 1 /\
  (NoDup (App.ids (App.recentlyPlayed st)) -> NoDup (App.ids (App.recentlyPlayed st'))).
Proof.
  cbv zeta. unfold App.playStation, App.updateStationStats.
  cbn [App.recentlyPlayed].
  destruct (pushRecent_facts station
    (App.updateList (App.stationuuid station)
       (App.SetClickcount (App.clickcount station + 1)) (App.recentlyPlayed st)))
    as (H1 & H2 & H3 & H4).
  rewrite ids_updateList in H4. auto.
Qed.

Lemma recently_played_is_a_bounded_mru_witness :
  let a := App.mkStation "a" 3 7 in
  let b := App.mkStation "b" 1 0 in
  let st := App.mkState [a; b] [] [b; a] [] in
  NoDup (App.ids (App.recentlyPlayed st)) /\
  NoDup (App.ids (App.recentlyPlayed (App.playStation a st))).
Proof.
  split.
  - repeat constructor; cbn; intuition discriminate.
  - apply (recently_played_is_a_bounded_mru (App.mkStation "a" 3 7)
             (App.mkState [App.mkStation "a" 3 7; App.mkStation "b" 1 0] []
                          [App.mkStation "b" 1 0; App.mkStation "a" 3 7] [])).
    repeat constructor; cbn; intuition discriminate.
Defined.

Lemma isFav_app l1 l2 uuid :
  App.isFav (l1 ++ l2)%list uuid = App.isFav l1 uuid || App.isFav l2 uuid.
Proof. unfold App.isFav. apply existsb_app. Qed.

Lemma isFav_without l uuid x :
  App.isFav (App.without uuid l) x = App.isFav l x && negb (String.eqb x uuid).
Proof.
  unfold App.isFav, App.without. induction l as [|s l IH]; cbn; [reflexivity|].
  destruct (String.eqb (App.stationuuid s) uuid) eqn:Hu; cbn; rewrite IH.
  - apply String.eqb_eq in Hu.
    destruct (String.eqb (App.stationuuid s) x) eqn:Hx; cbn; [|reflexivity].
    apply String.eqb_eq in Hx. rewrite <- Hx, Hu, String.eqb_refl. cbn.
    now rewrite andb_false_r.
  - destruct (String.eqb (App.stationuuid s) x) eqn:Hx; cbn; [|reflexivity].
    apply String.eqb_eq in Hx. rewrite <- Hx, Hu. reflexivity.
Qed.

(** X4: the favorite toggle flips the membership of the station it is
    given and of no other identity; toggling a station that is not a
    favorite and toggling it again gives the list back; identities stay
    unrepeated if they were. *)
Theorem favorite_toggle_flips_one_station (station : App.Station) (prev : list App.Station) :
  App.isFav (App.toggleFavorite station prev) (App.stationuuid station)
    = negb (App.isFav prev (App.stationuuid station)) /\
  (forall x, x <> App.stationuuid station ->
     App.isFav (App.toggleFavorite station prev) x = App.isFav prev x) /\
  (App.isFav prev (App.stationuuid station) = false ->
     App.toggleFavorite station (App.toggleFavorite station prev) = prev) /\
  (NoDup (App.ids prev) -> NoDup (App.ids (App.toggleFavorite station prev))).
Proof.
  unfold App.toggleFavorite.
  destruct (App.isFav prev (App.stationuuid station)) eqn:Hf.
  - split; [|split; [|split]].
    + rewrite isFav_without, String.eqb_refl. now rewrite andb_false_r.
    + intros x Hx. rewrite isFav_without.
      destruct (String.eqb_spec x (App.stationuuid station)); [contradiction|].
      now rewrite andb_true_r.
    + discriminate.
    + intros Hnd. rewrite ids_without. now apply NoDup_filter.
  - assert (Hs : App.isFav [station] (App.stationuuid station) = true).
    { cbn. now rewrite String.eqb_refl. }
    split; [|split; [|split]].
    + now rewrite isFav_app, Hf, Hs.
    + intros x Hx. rewrite isFav_app. cbn.
      destruct (String.eqb_spec (App.stationuuid station) x); [congruence|].
      now rewrite !orb_false_r.
    + intros _. rewrite isFav_app, Hf, Hs. cbn.
      unfold App.without. rewrite filter_app. cbn. rewrite String.eqb_refl. cbn.
      rewrite app_nil_r. now apply without_absent.
    + intros Hnd. unfold App.ids. rewrite map_app. cbn.
      apply NoDup_app; [exact Hnd | repeat constructor; intros [] | ].
      intros x Hx [<-|[]]. apply isFav_in in Hx. congruence.
Qed.

Lemma favorite_toggle_flips_one_station_witness :
  let a := App.mkStation "a" 3 7 in
  let b := App.mkStation "b" 1 0 in
  App.isFav [b] (App.stationuuid a) = false /\
  App.toggleFavorite a (App.toggleFavorite a [b]) = [b].
Proof.
  split; [reflexivity|].
  apply (favorite_toggle_flips_one_station (App.mkStation "a" 3 7) [App.mkStation "b" 1 0]).
  reflexivity.
Defined.

Lemma updateList_other uuid u l s :
  In s l -> App.stationuuid s <> uuid -> In s (App.updateList uuid u l).
Proof.
  intros Hin Hn. unfold App.updateList. apply in_map_iff. exists s.
  split; [|exact Hin].
  destruct (String.eqb_spec (App.stationuuid s) uuid); [contradiction|reflexivity].
Qed.

Lemma updateList_updated uuid u l s' :
  In s' (App.updateList uuid u l) -> App.stationuuid s' = uuid ->
  exists s, In s l /\ App.stationuuid s = uuid /\ s' = App.spread s u.
Proof.
  unfold App.updateList. intros Hin Hu. apply in_map_iff in Hin.
  destruct Hin as (s & Hs & Hin). exists s.
  destruct (String.eqb_spec (App.stationuuid s) uuid) as [He|Hne].
  - auto.
  - subst s'. contradiction.
Qed.

(** X5: [updateStationStats] leaves the voted identities as they are and
    treats the three station lists alike: in the listed stations, the
    favorites and the recently played ones the identities stay in place, a
    station of another identity is left untouched, and every station of the
    given identity is the old one with the new value written over it. *)
Theorem station_stats_update_is_local (uuid : string) (u : App.Updates) (st : App.State) :
  let st' := App.updateStationStats uuid u st in
  App.votedIds st' = App.votedIds st /\
  forall field : App.State -> list App.Station,
    field = App.stations \/ field = App.favorites \/ field = App.recentlyPlayed ->
    App.ids (field st') = App.ids (field st) /\
    (forall s, In s (field st) -> App.stationuuid s <> uuid -> In s (field st')) /\
    (forall s', In s' (field st') -> App.stationuuid s' = uuid ->
       (exists s, In s (field st) /\ App.stationuuid s = uuid /\ s' = App.spread s u) /\
       match u with
       | App.SetVotes v => App.votes s' = v
       | App.SetClickcount c => App.clickcount s' = c
       end).
Proof.
  cbn zeta. split; [reflexivity|].
  intros field [->|[->| ->]]; cbn [App.updateStationStats App.stations
    App.favorites App.recentlyPlayed]; rewrite ids_updateList;
    (split; [reflexivity|]); (split; [intros s; apply updateList_other|]);
    intros s' Hin Hu;
    destruct (updateList_updated uuid u _ s' Hin Hu) as (s & Hs & Hsu & ->);
    (split; [exists s; auto | now destruct u]).
Qed.

Lemma station_stats_update_is_local_witness :
  let a := App.mkStation "a" 3 7 in
  let b := App.mkStation "b" 1 0 in
  let st := App.mkState [a; b] [b; a] [a] [] in
  In b (App.favorites (App.updateStationStats "a" (App.SetVotes 4) st)) /\
  forall s', In s' (App.favorites (App.updateStationStats "a" (App.SetVotes 4) st)) ->
    App.stationuuid s' = "a" -> App.votes s' = 4%N.
Proof.
  destruct (proj2 (station_stats_update_is_local "a" (App.SetVotes 4)
       (App.mkState [App.mkStation "a" 3 7; App.mkStation "b" 1 0]
                    [App.mkStation "b" 1 0; App.mkStation "a" 3 7]
                    [App.mkStation "a" 3 7] []))
     App.favorites (or_intror (or_introl eq_refl)))
    as (_ & Hother & Hsame).
  split.
  - apply Hother; [cbn; auto | discriminate].
  - intros s' Hin Hu. exact (proj2 (Hsame s' Hin Hu)).
Defined.

Lemma updateList_undo uuid v v' l :
  (forall s, In s l -> App.stationuuid s = uuid -> App.votes s = v) ->
  App.updateList uuid (App.SetVotes v) (App.updateList uuid (App.SetVotes v') l) = l.
Proof.
  unfold App.updateList. rewrite map_map. intros H.
  rewrite <- (map_id l) at 2. apply map_ext_in. intros s Hs.
  destruct (String.eqb (App.stationuuid s) uuid) eqn:E; cbn; rewrite E.
  - apply String.eqb_eq in E. rewrite <- (H s Hs E). now destruct s.
  - reflexivity.
Qed.

Lemma delete_add ids x : App.has ids x = false -> App.delete (App.add ids x) x = ids.
Proof.
  intros H. unfold App.add. rewrite H. unfold App.delete.
  rewrite filter_app. cbn. rewrite String.eqb_refl. cbn. rewrite app_nil_r.
  unfold App.has in H. induction ids as [|y ids IH]; cbn in *; [reflexivity|].
  apply orb_false_elim in H. destruct H as [Hy H].
  rewrite Hy. cbn. now rewrite IH.
Qed.

(** X6: a vote is shown at once and marks the station as voted for; a
    second vote for it changes nothing; and when the service refuses the
    vote, taking it back restores the state, provided the station was not
    voted for and its listed copies carried the votes of the copy clicked. *)
Theorem vote_is_single_and_revocable (station : App.Station) (st : App.State) :
  App.has (App.votedIds (App.handleVote station st)) (App.stationuuid station) = true /\
  App.handleVote station (App.handleVote station st) = App.handleVote station st /\
  (App.has (App.votedIds st) (App.stationuuid station) = false ->
   (forall s, In s (App.stations st ++ App.favorites st ++ App.recentlyPlayed st)%list ->
      App.stationuuid s = App.stationuuid station -> App.votes s = App.votes station) ->
   App.handleVoteSettled station false (App.handleVote station st) = st).
Proof.
  assert (H1 : App.has (App.votedIds (App.handleVote station st))
                       (App.stationuuid station) = true).
  { unfold App.handleVote.
    destruct (App.has (App.votedIds st) (App.stationuuid station)) eqn:Hh; [exact Hh|].
    cbn. unfold App.add. rewrite Hh. unfold App.has. rewrite existsb_app. cbn.
    rewrite String.eqb_refl. now rewrite orb_true_r. }
  split; [exact H1|]. split.
  - unfold App.handleVote at 1. now rewrite H1.
  - intros Hh Hv. unfold App.handleVote. rewrite Hh.
    unfold App.handleVoteSettled, App.updateStationStats.
    cbn [App.stations App.favorites App.recentlyPlayed App.votedIds].
    rewrite !updateList_undo, (delete_add _ _ Hh).
    + now destruct st.
    + intros s Hs. apply Hv. rewrite !in_app_iff. auto.
    + intros s Hs. apply Hv. rewrite !in_app_iff. auto.
    + intros s Hs. apply Hv. rewrite !in_app_iff. auto.
Qed.

Lemma vote_is_single_and_revocable_witness :
  let a := App.mkStation "a" 3 7 in
  let st := App.mkState [a; App.mkStation "b" 1 0] [a] [] ["b"] in
  App.handleVoteSettled a false (App.handleVote a st) = st.
Proof.
  apply (proj2 (proj2 (vote_is_single_and_revocable (App.mkStation "a" 3 7)
    (App.mkState [App.mkStation "a" 3 7; App.mkStation "b" 1 0]
                 [App.mkStation "a" 3 7] [] ["b"])))).
  - reflexivity.
  - cbn. intros s [<-|[<-|[<-|[]]]]; intros H; try reflexivity; discriminate H.
Defined.

(** ** What a commit registers *)

Lemma exec_seq (m k : M unit) (w : World) : exec (m ;; k) w = exec k (exec m w).
Proof. unfold exec, bind. now destruct (m w). Qed.

Lemma commitBody_chain e last r w :
  exec (commitBody e last r) w =
  exec (putCommitted (Some r))
    (exec (when (changed sameResetDeps last r) resetEffect)
      (exec (when (changed sameListenerDeps last r) (listenerEffect r))
        (exec (when (changed sameAttachDeps last r) (attachEffect e r))
          (exec (when (changed sameVisualizerDeps last r) (visualizerEffect e r)) w)))).
Proof. unfold commitBody. now rewrite !exec_seq. Qed.

Lemma changed_false same last r :
  changed same last r = false -> exists q, last = Some q /\ same q r = true.
Proof.
  unfold changed. destruct last as [q|]; [|discriminate].
  intros H. exists q. split; [reflexivity|]. now destruct (same q r).
Qed.

Lemma visualizer_frame e r l h x p :
  preserves (fun v => errListener v = l /\ hlsRef (refs v) = h /\
                      crossOrigin v = x /\ props v = p)
            (visualizerEffect e r).
Proof. pres. Qed.

Lemma attach_frame e r l d p :
  preserves (fun v => errListener v = l /\ drawLoop v = d /\ props v = p)
            (attachEffect e r).
Proof. pres. Qed.

Lemma listener_frame r rf x d p :
  preserves (fun v => refs v = rf /\ crossOrigin v = x /\ drawLoop v = d /\ props v = p)
            (listenerEffect r).
Proof. pres. Qed.

Lemma reset_frame l rf x d p :
  preserves (fun v => errListener v = l /\ refs v = rf /\ crossOrigin v = x /\
                      drawLoop v = d /\ props v = p)
            resetEffect.
Proof. pres. Qed.

Lemma listener_registers r w :
  errListener (exec (listenerEffect r) w) =
  match station (r_props r) with
  | None => None
  | Some _ => Some (retryStage (r_hooks r))
  end.
Proof. unfold listenerEffect. now destruct (station (r_props r)). Qed.

Lemma attach_registers e r w :
  (station (r_props r) = None ->
     refs (exec (attachEffect e r) w) = refs w /\
     crossOrigin (exec (attachEffect e r) w) = crossOrigin w) /\
  (station (r_props r) <> None ->
     (hlsRef (refs (exec (attachEffect e r) w)) = true -> retryStage (r_hooks r) = 0) /\
     crossOrigin (exec (attachEffect e r) w) = corsPolicy (retryStage (r_hooks r))).
Proof.
  unfold attachEffect, corsPolicy.
  destruct (station (r_props r)) as [s|].
  - split; [discriminate|]. intros _.
    cbv beta zeta delta [exec bind get when skip ret safePlay].
    destruct (hlsRef (refs w)) eqn:Hh;
    destruct (Nat.leb 3 (retryStage (r_hooks r)));
    destruct (includes _ ".m3u8"); destruct (hlsSupported e);
    destruct (Nat.eqb_spec (retryStage (r_hooks r)) 0);
    destruct (isPlaying (r_props r)); destruct (hasError r);
    cbn; split; auto; congruence.
  - split; [|congruence]. intros _. now split.
Qed.

Lemma visualizer_registers e r w b :
  drawLoop (exec (visualizerEffect e r) w) = Some b ->
  isPlaying (r_props r) = true /\ hasError r = false /\ b = isCorsBlocked (r_hooks r).
Proof.
  unfold visualizerEffect. rewrite exec_seq.
  destruct (station (r_props r)); [|discriminate].
  destruct (isPlaying (r_props r)); cbn [andb]; [|discriminate].
  destruct (hasError r); cbn [negb]; [discriminate|].
  rewrite !exec_seq. cbn. intros H. injection H as <-. auto.
Qed.

Lemma sameListenerDeps_eq q r :
  sameListenerDeps q r = true -> retryStage (r_hooks q) = retryStage (r_hooks r).
Proof. apply Nat.eqb_eq. Qed.

Lemma sameAttachDeps_eq q r :
  sameAttachDeps q r = true ->
  retryStage (r_hooks q) = retryStage (r_hooks r) /\
  (station (r_props q) = None <-> station (r_props r) = None).
Proof.
  unfold sameAttachDeps. intros H.
  apply andb_prop in H. destruct H as [H _].
  apply andb_prop in H. destruct H as [H _].
  apply andb_prop in H. destruct H as [Hs Hk].
  apply Nat.eqb_eq in Hk. split; [exact Hk|].
  destruct (station (r_props q)), (station (r_props r)); cbn in Hs;
    split; congruence.
Qed.

Lemma sameVisualizerDeps_eq q r :
  sameVisualizerDeps q r = true ->
  isPlaying (r_props q) = isPlaying (r_props r) /\
  hasError q = hasError r /\
  isCorsBlocked (r_hooks q) = isCorsBlocked (r_hooks r).
Proof.
  unfold sameVisualizerDeps, hasError. intros H.
  apply andb_prop in H. destruct H as [H Hc].
  apply andb_prop in H. destruct H as [Hp He].
  apply Bool.eqb_prop in Hp. apply Bool.eqb_prop in Hc.
  apply optErrorEqb_eq in He. rewrite He. auto.
Qed.

Lemma when_frame (P : World -> Prop) (b : bool) (m : M unit) (w : World) :
  preserves P m -> P w -> P (exec (when b m) w).
Proof. intros Hm Hw. exact (preserves_when P b m Hm w Hw). Qed.

(** A commit leaves the world in sync with the render it commits. *)
Lemma commit_inSync e w : InSync w -> InSync (exec (commit e) w).
Proof.
  intros (H5 & H6 & Hq).
  unfold exec at 1. rewrite commit_unfold.
  change (snd (commitBody e (committed w) (snapshot w) w))
    with (exec (commitBody e (committed w) (snapshot w)) w).
  rewrite commitBody_chain.
  set (r := snapshot w). set (last := committed w) in *.
  set (w1 := exec (when (changed sameVisualizerDeps last r) (visualizerEffect e r)) w).
  set (w2 := exec (when (changed sameAttachDeps last r) (attachEffect e r)) w1).
  set (w3 := exec (when (changed sameListenerDeps last r) (listenerEffect r)) w2).
  set (w4 := exec (when (changed sameResetDeps last r) resetEffect) w3).
  (* what the other effects leave alone *)
  destruct (when_frame _ (changed sameVisualizerDeps last r) _ w
              (visualizer_frame e r (errListener w) (hlsRef (refs w))
                                (crossOrigin w) (props w)))
    as (F1l & F1h & F1x & F1p); [auto|]. fold w1 in F1l, F1h, F1x, F1p.
  destruct (when_frame _ (changed sameAttachDeps last r) _ w1
              (attach_frame e r (errListener w1) (drawLoop w1) (props w1)))
    as (F2l & F2d & F2p); [auto|]. fold w2 in F2l, F2d, F2p.
  destruct (when_frame _ (changed sameListenerDeps last r) _ w2
              (listener_frame r (refs w2) (crossOrigin w2) (drawLoop w2) (props w2)))
    as (F3r & F3x & F3d & F3p); [auto|]. fold w3 in F3r, F3x, F3d, F3p.
  destruct (when_frame _ (changed sameResetDeps last r) _ w3
              (reset_frame (errListener w3) (refs w3) (crossOrigin w3)
                           (drawLoop w3) (props w3)))
    as (F4l & F4r & F4x & F4d & F4p); [auto 6|]. fold w4 in F4l, F4r, F4x, F4d, F4p.
  assert (Hp : props w4 = props w) by congruence.
  assert (Hr : station (r_props r) = station (props w)) by reflexivity.
  (* what each effect registers *)
  assert (A2 : (station (props w) = None -> hlsRef (refs w2) = false) /\
               (hlsRef (refs w2) = true -> retryStage (r_hooks r) = 0) /\
               (station (r_props r) <> None ->
                  crossOrigin w2 = corsPolicy (retryStage (r_hooks r)))).
  { subst w2. destruct (changed sameAttachDeps last r) eqn:Hc; cbn [when].
    - destruct (attach_registers e r w1) as [Hn Hs].
      destruct (station (r_props r)) as [s|] eqn:Hst.
      + destruct Hs as [Hs1 Hs2]; [discriminate|].
        split; [rewrite <- Hr; discriminate|]. split; [exact Hs1|]. now intros _.
      + destruct (Hn eq_refl) as [Hn1 Hn2].
        assert (Hf : hlsRef (refs (exec (attachEffect e r) w1)) = false).
        { rewrite Hn1, F1h. apply H5. now rewrite <- Hr. }
        split; [now intros _|]. split; [|congruence].
        rewrite Hf. discriminate.
    - apply changed_false in Hc. destruct Hc as (q & Hl & Hs).
      apply sameAttachDeps_eq in Hs. destruct Hs as [Hk Hn].
      subst last. rewrite Hl in Hq. destruct Hq as (_ & Q2 & Q3 & _).
      change (exec skip w1) with w1. rewrite F1h, F1x.
      split; [exact H5|]. split.
      + intros Hh. rewrite <- Hk. now apply Q2.
      + intros Hs. rewrite <- Hk. apply Q3. tauto. }
  destruct A2 as (A25 & A22 & A23).
  assert (A3 : (errListener w3 <> None -> station (props w) <> None) /\
               (forall k, errListener w3 = Some k -> k = retryStage (r_hooks r))).
  { subst w3. destruct (changed sameListenerDeps last r) eqn:Hc; cbn [when].
    - rewrite listener_registers, Hr.
      destruct (station (props w)); split; congruence.
    - apply changed_false in Hc. destruct Hc as (q & Hl & Hs).
      apply sameListenerDeps_eq in Hs.
      subst last. rewrite Hl in Hq. destruct Hq as (Q1 & _).
      change (exec skip w2) with w2. rewrite F2l, F1l.
      split; [exact H6|]. intros k Hk. rewrite <- Hs. now apply Q1. }
  destruct A3 as (A36 & A31).
  assert (A1 : forall b, drawLoop w1 = Some b ->
               isPlaying (r_props r) = true /\ hasError r = false /\
               b = isCorsBlocked (r_hooks r)).
  { subst w1. destruct (changed sameVisualizerDeps last r) eqn:Hc; cbn [when].
    - intros b. apply visualizer_registers.
    - apply changed_false in Hc. destruct Hc as (q & Hl & Hs).
      apply sameVisualizerDeps_eq in Hs. destruct Hs as (Hs1 & Hs2 & Hs3).
      subst last. rewrite Hl in Hq. destruct Hq as (_ & _ & _ & Q4).
      change (exec skip w) with w. intros b Hb.
      rewrite <- Hs1, <- Hs2, <- Hs3. now apply Q4. }
  (* the committed world *)
  unfold InSync. cbn.
  rewrite Hp, F4l, F4r, F3r, F4x, F3x, F4d, F3d, F2d.
  split; [exact A25|]. split; [exact A36|].
  split; [exact A31|]. split; [exact A22|]. split; [exact A23|exact A1].
Qed.

Lemma handle_registrations e ev l h x d c :
  preserves (fun v => errListener v = l /\ hlsRef (refs v) = h /\
                      crossOrigin v = x /\ drawLoop v = d /\ committed v = c)
            (handle e ev).
Proof. unfold handle. pres. Qed.

Lemma handle_station e ev :
  preserves (fun v => station (props v) <> None) (handle e ev).
Proof.
  unfold handle. pres.
  intros w H. unfold playStation, modifyProps. cbn.
  destruct (optStringEqb _ _); cbn; [exact H | discriminate].
Qed.

Lemma handle_inSync e ev w : InSync w -> InSync (exec (handle e ev) w).
Proof.
  intros (H5 & H6 & Hq).
  destruct (handle_registrations e ev (errListener w) (hlsRef (refs w))
              (crossOrigin w) (drawLoop w) (committed w) w)
    as (Fl & Fh & Fx & Fd & Fc); [auto 6|].
  fold (exec (handle e ev) w) in Fl, Fh, Fx, Fd, Fc.
  unfold InSync. rewrite Fl, Fh, Fx, Fd, Fc.
  split; [|split; [|exact Hq]].
  - intros Hn. destruct (station (props w)) eqn:Hs; [|now apply H5].
    exfalso. revert Hn. apply (handle_station e ev w). now rewrite Hs.
  - intros Hl. apply (handle_station e ev w). now apply H6.
Qed.

Lemma settle_inSync n e w : InSync w -> InSync (settle n e w).
Proof.
  revert w. induction n as [|n IH]; intros w H; cbn [settle]; auto.
  destruct (hooksEqb _ _); [|apply IH]; now apply commit_inSync.
Qed.

Lemma unmounted_inSync : InSync unmounted.
Proof. unfold InSync. cbn. repeat split; congruence. Qed.

Lemma run_inSync w tr : InSync w -> InSync (run w tr).
Proof.
  revert w. induction tr as [|[e ev] tr IH]; intros w H; cbn [run]; auto.
  apply IH. unfold step. now apply settle_inSync, handle_inSync.
Qed.

Lemma inSync_at_rest w :
  settled w -> InSync w ->
  (station (props w) = None -> hlsRef (refs w) = false) /\
  (errListener w <> None -> station (props w) <> None) /\
  (forall k, errListener w = Some k -> k = retryStage (hooks w)) /\
  (hlsRef (refs w) = true -> retryStage (hooks w) = 0) /\
  (station (props w) <> None -> crossOrigin w = corsPolicy (retryStage (hooks w))) /\
  (forall b, drawLoop w = Some b ->
     isPlaying (props w) = true /\ error (hooks w) = None /\
     b = isCorsBlocked (hooks w)).
Proof.
  intros Hs (H5 & H6 & Hq). rewrite Hs in Hq. cbn in Hq.
  destruct Hq as (Q1 & Q2 & Q3 & Q4).
  split; [exact H5|]. split; [exact H6|]. split; [exact Q1|].
  split; [exact Q2|]. split; [exact Q3|].
  intros b Hb. destruct (Q4 b Hb) as (P1 & P2 & P3).
  split; [exact P1|]. split; [|exact P3].
  unfold hasError in P2. cbn in P2. now destruct (error (hooks w)).
Qed.

Lemma step_inSync e w ev : InSync w -> InSync (step e w ev).
Proof. intros H. unfold step. now apply settle_inSync, handle_inSync. Qed.

Lemma init_inSync e : InSync (init e).
Proof. unfold init. apply settle_inSync, unmounted_inSync. Qed.

(** Every world of a run is at rest and in sync with the render it shows. *)
Lemma reachable_inSync e tr :
  settled (run (init e) tr) /\ InSync (run (init e) tr).
Proof.
  split; [apply run_at_rest, init_at_rest | apply run_inSync, init_inSync].
Qed.

(** X7: in every world a run of the player reaches, the 'error', 'canplay'
    and 'waiting' listeners in place were registered by the render of the
    current retry stage, and they sit on the element of a chosen station. *)
Theorem listeners_hold_the_current_stage
    (e : Env) (tr : list (Env * Event)) (k : nat) :
  errListener (run (init e) tr) = Some k ->
  k = retryStage (hooks (run (init e) tr)) /\
  station (props (run (init e) tr)) <> None.
Proof.
  intros Hl. destruct (reachable_inSync e tr) as [Hs Hi].
  destruct (inSync_at_rest _ Hs Hi) as (_ & H6 & Q1 & _).
  split; [now apply Q1 | apply H6; congruence].
Qed.

Lemma listeners_hold_the_current_stage_witness :
  let tr := [ (envHttps, PlayStation demoStation);
              (envHttps, PlaySettled 0 (Rejected "NotSupportedError"));
              (envHttps, NativeError "https://stream.example.org:8000/live" (Some 4)) ] in
  errListener (run (init envHttps) tr) = Some 2 /\
  2 = retryStage (hooks (run (init envHttps) tr)) /\
  station (props (run (init envHttps) tr)) <> None.
Proof.
  split; [reflexivity|].
  apply (listeners_hold_the_current_stage envHttps
    [ (envHttps, PlayStation demoStation);
      (envHttps, PlaySettled 0 (Rejected "NotSupportedError"));
      (envHttps, NativeError "https://stream.example.org:8000/live" (Some 4)) ] 2).
  reflexivity.
Defined.

(** X8: in every world a run reaches, a live hls.js adapter means that a
    station is chosen, the retry stage is 0 and the element asks for
    anonymous cross-origin access: every later stage plays without the
    adapter. *)
Theorem adapter_lives_only_at_first_stage (e : Env) (tr : list (Env * Event)) :
  hlsRef (refs (run (init e) tr)) = true ->
  retryStage (hooks (run (init e) tr)) = 0 /\
  station (props (run (init e) tr)) <> None /\
  crossOrigin (run (init e) tr) = Some "anonymous".
Proof.
  intros Hh. destruct (reachable_inSync e tr) as [Hs Hi].
  destruct (inSync_at_rest _ Hs Hi) as (H5 & _ & _ & Q2 & Q3 & _).
  assert (Hst : station (props (run (init e) tr)) <> None).
  { intros Hn. rewrite (H5 Hn) in Hh. discriminate. }
  split; [now apply Q2|]. split; [exact Hst|].
  rewrite (Q3 Hst), (Q2 Hh). reflexivity.
Qed.

Lemma adapter_lives_only_at_first_stage_witness :
  let tr := [ (envHttps, PlayStation demoStation);
              (envHttps, PlayStation hlsStation);
              (envHttps, TogglePlay) ] in
  hlsRef (refs (run (init envHttps) tr)) = true /\
  retryStage (hooks (run (init envHttps) tr)) = 0 /\
  station (props (run (init envHttps) tr)) <> None /\
  crossOrigin (run (init envHttps) tr) = Some "anonymous".
Proof.
  split; [reflexivity|].
  apply (adapter_lives_only_at_first_stage envHttps
    [ (envHttps, PlayStation demoStation);
      (envHttps, PlayStation hlsStation);
      (envHttps, TogglePlay) ]).
  reflexivity.
Defined.

(** X9: in every world a run reaches with a station chosen, the element's
    crossOrigin attribute is the one of the current retry stage: 'anonymous'
    up to stage 2, absent from stage 3 on.  No handler or other effect
    leaves it behind the stage. *)
Theorem cors_attribute_follows_the_stage (e : Env) (tr : list (Env * Event)) :
  station (props (run (init e) tr)) <> None ->
  (retryStage (hooks (run (init e) tr)) <= 2 ->
     crossOrigin (run (init e) tr) = Some "anonymous") /\
  (3 <= retryStage (hooks (run (init e) tr)) ->
     crossOrigin (run (init e) tr) = None).
Proof.
  intros Hst. destruct (reachable_inSync e tr) as [Hs Hi].
  destruct (inSync_at_rest _ Hs Hi) as (_ & _ & _ & _ & Q3 & _).
  rewrite (Q3 Hst). unfold corsPolicy.
  destruct (Nat.leb_spec 3 (retryStage (hooks (run (init e) tr)))).
  - split; [lia | reflexivity].
  - split; [reflexivity | lia].
Qed.

Lemma cors_attribute_follows_the_stage_witness :
  let tr := [ (envHttps, PlayStation demoStation);
              (envHttps, PlaySettled 0 (Rejected "NotSupportedError"));
              (envHttps, NativeError "https://stream.example.org:8000/live" (Some 4));
              (envHttps, NativeError "http://stream.example.org:8000/live" (Some 4)) ] in
  station (props (run (init envHttps) tr)) <> None /\
  3 <= retryStage (hooks (run (init envHttps) tr)) /\
  crossOrigin (run (init envHttps) tr) = None.
Proof.
  split; [vm_compute; discriminate|]. split; [vm_compute; lia|].
  apply (cors_attribute_follows_the_stage envHttps
    [ (envHttps, PlayStation demoStation);
      (envHttps, PlaySettled 0 (Rejected "NotSupportedError"));
      (envHttps, NativeError "https://stream.example.org:8000/live" (Some 4));
      (envHttps, NativeError "http://stream.example.org:8000/live" (Some 4)) ]).
  - vm_compute. discriminate.
  - vm_compute. lia.
Defined.

(** X10: in every world a run reaches, a running frame loop means that
    playback is on and no failure is shown, and the loop draws with the
    current analysis flag, not one of an earlier render. *)
Theorem frame_loop_only_while_playing
    (e : Env) (tr : list (Env * Event)) (b : bool) :
  drawLoop (run (init e) tr) = Some b ->
  isPlaying (props (run (init e) tr)) = true /\
  error (hooks (run (init e) tr)) = None /\
  b = isCorsBlocked (hooks (run (init e) tr)).
Proof.
  intros Hd. destruct (reachable_inSync e tr) as [Hs Hi].
  destruct (inSync_at_rest _ Hs Hi) as (_ & _ & _ & _ & _ & Q4).
  now apply Q4.
Qed.

Lemma frame_loop_only_while_playing_witness :
  let tr := [ (envTainted, PlayStation demoStation); (envTainted, Frame) ] in
  drawLoop (run (init envTainted) tr) = Some true /\
  isPlaying (props (run (init envTainted) tr)) = true /\
  error (hooks (run (init envTainted) tr)) = None /\
  true = isCorsBlocked (hooks (run (init envTainted) tr)).
Proof.
  split; [reflexivity|].
  apply (frame_loop_only_while_playing envTainted
    [ (envTainted, PlayStation demoStation); (envTainted, Frame) ] true).
  reflexivity.
Defined.

(** ** Worlds at rest *)

Lemma sameVisualizerDeps_refl r : sameVisualizerDeps r r = true.
Proof.
  unfold sameVisualizerDeps.
  now rewrite !Bool.eqb_reflx, optErrorEqb_refl.
Qed.

Lemma sameAttachDeps_refl r : sameAttachDeps r r = true.
Proof.
  unfold sameAttachDeps.
  now rewrite optStationEqb_refl, Nat.eqb_refl, Bool.eqb_reflx, optErrorEqb_refl.
Qed.

(** A commit at rest runs no effect. *)
Lemma commit_idle e w : settled w -> exec (commit e) w = w.
Proof.
  intros Hs. unfold exec. rewrite commit_unfold, Hs.
  unfold commitBody, changed, sameListenerDeps, sameResetDeps.
  rewrite sameVisualizerDeps_refl, sameAttachDeps_refl, Nat.eqb_refl,
    optStringEqb_refl.
  cbn. unfold settled in Hs. destruct w; cbn in *. now rewrite Hs.
Qed.

Lemma settle_idle n e w : settled w -> settle n e w = w.
Proof.
  intros Hs. destruct n; [reflexivity|].
  rewrite settle_S, (commit_idle e w Hs). now rewrite hooksEqb_refl.
Qed.

(** ** Choosing the station that is already current *)

Lemma reselect_handle e w s :
  optStringEqb (uuidOf (station (props w))) (Some (stationuuid s)) = true ->
  let w1 := exec (handle e (PlayStation s)) w in
  props w1 = mkProps (station (props w)) true /\
  hooks w1 = hooks w /\ committed w1 = committed w.
Proof.
  intros H. unfold handle, exec, bind, get, playStation, modifyProps. cbn.
  rewrite H. now cbn.
Qed.

Lemma reselect_step e w s :
  settled w ->
  optStringEqb (uuidOf (station (props w))) (Some (stationuuid s)) = true ->
  Keeps (retryStage (hooks w)) (error (hooks w)) (mkProps (station (props w)) true)
        (step e w (PlayStation s)).
Proof.
  intros Hs Hu. destruct (reselect_handle e w s Hu) as (Hp & Hh & Hc).
  unfold step. apply settle_keeps.
  - unfold inSession. rewrite Hc, Hs, Hp. cbn. apply optStringEqb_refl.
  - unfold Keeps. now rewrite Hh, Hp.
Qed.

(** ** The range of the retry stage *)

Lemma handle_quiet_stage e ev n :
  ev = TogglePlay \/ ev = ManualRetry \/ ev = CanPlay \/ ev = Waiting \/
  ev = ManifestParsed \/ ev = Frame ->
  preserves (fun v => retryStage (hooks v) <= n) (handle e ev).
Proof.
  intros [->|[->|[->|[->|[->| ->]]]]]; unfold handle; pres.
Qed.

Lemma handle_settled_play_stage e i o w :
  isRejectedPlay (PlaySettled i o) = false ->
  retryStage (hooks (exec (handle e (PlaySettled i o)) w)) = retryStage (hooks w).
Proof.
  intros H. rewrite handle_playSettled.
  unfold onPlaySettled, exec, bind, get.
  destruct (nth_error (pending w) i); [|reflexivity].
  destruct o as [|name]; cbn in *; [reflexivity|].
  rewrite H. reflexivity.
Qed.

Lemma step_within_stages e w ev :
  settled w -> InSync w -> isRejectedPlay ev = false ->
  retryStage (hooks w) <= 5 -> retryStage (hooks (step e w ev)) <= 5.
Proof.
  intros Hs Hi Hev H5.
  pose proof (settled_inSession w Hs) as Hin.
  destruct (inSync_at_rest w Hs Hi) as (_ & _ & Q1 & Q2 & _).
  assert (Hq : forall ev', (forall s, ev' <> PlayStation s) ->
            retryStage (hooks (exec (handle e ev') w)) <= 5 ->
            retryStage (hooks (step e w ev')) <= 5).
  { intros ev' Hne Hle. now rewrite (proj1 (step_stage e ev' w Hne Hin)). }
  destruct ev as [s| | |src code| | |fatal ty| |i o|].
  - destruct (optStringEqb (uuidOf (station (props w))) (Some (stationuuid s))) eqn:Hu.
    + destruct (reselect_step e w s Hs Hu) as (Hk & _). now rewrite Hk.
    + assert (H0 : retryStage (hooks (step e w (PlayStation s))) = 0).
      { apply (station_change_resets e w s); [|exact Hu].
        exists (snapshot w). split; [exact Hs | exact Hu]. }
      rewrite H0. lia.
  - apply Hq; [discriminate|]. apply (handle_quiet_stage e TogglePlay 5); auto.
  - apply Hq; [discriminate|]. apply (handle_quiet_stage e ManualRetry 5); auto.
  - destruct (errListener w) as [k|] eqn:Hl.
    + apply native_error_stays_within_stages; auto.
      now rewrite <- (Q1 k eq_refl).
    + apply Hq; [discriminate|].
      unfold handle, exec, bind, get. rewrite Hl. exact H5.
  - apply Hq; [discriminate|]. apply (handle_quiet_stage e CanPlay 5); auto.
  - apply Hq; [discriminate|]. apply (handle_quiet_stage e Waiting 5); auto 6.
  - apply Hq; [discriminate|].
    unfold handle, exec, bind, get, hlsOnError.
    destruct (hlsRef (refs w)) eqn:Hh; [|exact H5].
    destruct fatal; cbn; [rewrite (Q2 eq_refl); lia | exact H5].
  - apply Hq; [discriminate|]. apply (handle_quiet_stage e ManifestParsed 5); auto 6.
  - apply Hq; [discriminate|]. now rewrite handle_settled_play_stage.
  - apply Hq; [discriminate|]. apply (handle_quiet_stage e Frame 5); auto 7.
Qed.

Lemma run_within_stages w tr :
  settled w -> InSync w -> calm tr = true ->
  retryStage (hooks w) <= 5 -> retryStage (hooks (run w tr)) <= 5.
Proof.
  revert w. induction tr as [|[e ev] tr IH]; intros w Hs Hi Hc H5; cbn [run]; auto.
  cbn in Hc. apply andb_prop in Hc. destruct Hc as [Hev Hc].
  apply negb_true_iff in Hev.
  apply IH; [apply step_at_rest | now apply step_inSync | exact Hc |].
  now apply step_within_stages.
Qed.

(** X11: in a run where no play request is rejected with an error other
    than 'AbortError', the retry stage stays within the six strategies: the
    'error' listener, the adapter's fatal errors, the manual reset and a
    station change never take it above 5. *)
Theorem stage_leaves_range_only_by_rejected_play
    (e : Env) (tr : list (Env * Event)) :
  calm tr = true -> retryStage (hooks (run (init e) tr)) <= 5.
Proof.
  intros Hc. apply run_within_stages; auto.
  - apply init_at_rest.
  - apply init_inSync.
  - vm_compute. lia.
Qed.

Lemma stage_leaves_range_only_by_rejected_play_witness :
  let tr := (envHttps, PlayStation hlsStation)
            :: (envHttps, HlsError true NETWORK_ERROR)
            :: (repeat (envHttps,
                        NativeError "https://live.example.com/hls/master.m3u8"
                                    (Some 4)) 4
                ++ repeat (envHttps,
                           NativeError
                             "https://live.example.com/hls/master.m3u8/;?cb=1700000000000"
                             (Some 4)) 5)%list in
  calm tr = true /\ retryStage (hooks (run (init envHttps) tr)) <= 5.
Proof.
  split; [reflexivity|].
  apply (stage_leaves_range_only_by_rejected_play envHttps
    ((envHttps, PlayStation hlsStation)
     :: (envHttps, HlsError true NETWORK_ERROR)
     :: (repeat (envHttps,
                 NativeError "https://live.example.com/hls/master.m3u8" (Some 4)) 4
         ++ repeat (envHttps,
                    NativeError
                      "https://live.example.com/hls/master.m3u8/;?cb=1700000000000"
                      (Some 4)) 5)%list)).
  reflexivity.
Defined.

(** X12: choosing the station that is already current, by identity, turns
    playback on and nothing else: the player keeps the station object it
    has, its retry stage and a failure it shows. *)
Theorem reselecting_station_keeps_progress
    (e : Env) (w : World) (s s0 : Station) :
  settled w ->
  station (props w) = Some s0 ->
  stationuuid s = stationuuid s0 ->
  let w' := step e w (PlayStation s) in
  station (props w') = Some s0 /\
  isPlaying (props w') = true /\
  retryStage (hooks w') = retryStage (hooks w) /\
  error (hooks w') = error (hooks w).
Proof.
  intros Hs Hst Hu w'.
  destruct (reselect_step e w s Hs) as (Hk & He & Hp).
  { rewrite Hst. cbn. rewrite Hu. apply String.eqb_refl. }
  subst w'. rewrite Hp, Hk, He, Hst. now cbn.
Qed.

Lemma reselecting_station_keeps_progress_witness :
  let w := step envHttps failedAtFinalStage TogglePlay in
  let s := mkStation (stationuuid demoStation) "http://moved.example.org/live" "" in
  let w' := step envHttps w (PlayStation s) in
  station (props w') = Some demoStation /\
  isPlaying (props w') = true /\
  retryStage (hooks w') = retryStage (hooks w) /\
  error (hooks w') = error (hooks w).
Proof.
  apply (reselecting_station_keeps_progress envHttps
    (step envHttps failedAtFinalStage TogglePlay)
    (mkStation (stationuuid demoStation) "http://moved.example.org/live" "")
    demoStation).
  - unfold step. exact (settle_at_rest envHttps _).
  - vm_compute. reflexivity.
  - reflexivity.
Defined.

(** ** The listeners of the first station *)

Lemma commitBody_listener e q r l :
  sameListenerDeps q r = true ->
  preserves (fun v => errListener v = l) (commitBody e (Some q) r).
Proof.
  intros H. unfold commitBody, changed. rewrite H. cbn [negb when]. pres.
Qed.

Lemma commitBody_stage_zero e last r :
  preserves (fun v => retryStage (hooks v) = 0) (commitBody e last r).
Proof. unfold commitBody. pres. Qed.

Lemma commit_listener_kept e w q :
  committed w = Some q ->
  retryStage (r_hooks q) = retryStage (hooks w) ->
  errListener (exec (commit e) w) = errListener w.
Proof.
  intros Hc Hq. unfold exec. rewrite commit_unfold, Hc.
  apply (commitBody_listener e q (snapshot w) (errListener w)); [|reflexivity].
  unfold sameListenerDeps. cbn. rewrite Hq. apply Nat.eqb_refl.
Qed.

Lemma settle_listener_zero n e w q :
  committed w = Some q -> retryStage (r_hooks q) = 0 ->
  retryStage (hooks w) = 0 ->
  errListener (settle n e w) = errListener w /\
  retryStage (hooks (settle n e w)) = 0.
Proof.
  revert w q. induction n as [|n IH]; intros w q Hc Hq H0; cbn [settle]; auto.
  assert (Hl : errListener (exec (commit e) w) = errListener w).
  { apply (commit_listener_kept e w q Hc). congruence. }
  assert (Hz : retryStage (hooks (exec (commit e) w)) = 0).
  { unfold exec. rewrite commit_unfold. now apply commitBody_stage_zero. }
  destruct (hooksEqb _ _); [now split|].
  rewrite <- Hl. apply (IH _ (snapshot w)); auto. apply commit_committed.
Qed.


Lemma init_unfold e :
  init e = mkWorld (mkProps None false) (mkHooks 0 None false false)
                   (mkRefs false false false false) None None None []
                   (Some (mkRender (mkProps None false) (mkHooks 0 None false false)))
                   [].
Proof. reflexivity. Qed.

Lemma unheard_error e w src code :
  settled w -> errListener w = None -> step e w (NativeError src code) = w.
Proof.
  intros Hs Hl. unfold step.
  assert (H : exec (handle e (NativeError src code)) w = w).
  { unfold handle, exec, bind, get. now rewrite Hl. }
  rewrite H. now apply settle_idle.
Qed.

(** X13: the first station chosen after the player is mounted gets no
    'error', 'canplay' or 'waiting' listener: the listener effect ran when
    there was no element and its only dependency, the retry stage, has not
    changed.  A native error of the element is then not heard at all. *)
Theorem first_station_gets_no_error_listener
    (e e0 : Env) (s : Station) (src : string) (code : option nat) :
  let w := step e (init e0) (PlayStation s) in
  station (props w) = Some s /\
  retryStage (hooks w) = 0 /\
  errListener w = None /\
  step e w (NativeError src code) = w.
Proof.
  intros w.
  assert (Hl : errListener w = None /\ retryStage (hooks w) = 0).
  { subst w. unfold step.
    set (w1 := exec (handle e (PlayStation s)) (init e0)).
    destruct (settle_listener_zero renderBudget e w1
                (mkRender (mkProps None false) (mkHooks 0 None false false)))
      as [H1 H2]; try reflexivity.
    split; [rewrite H1; reflexivity | exact H2]. }
  destruct Hl as [Hl H0].
  split; [|split; [exact H0|split; [exact Hl|]]].
  - subst w. unfold step. rewrite settle_props. reflexivity.
  - apply unheard_error; [|exact Hl]. subst w. apply step_at_rest.
Qed.

(** ** The listeners after a stage change *)



(** ** The source the element holds *)
















(** The native errors of the sample runs carry the source the element
    holds at that point of the run. *)
Lemma sample_runs_are_heard_at_source :
  heardAtSource (init envHttps)
    [ (envHttps, PlayStation demoStation);
      (envHttps, PlaySettled 0 (Rejected "NotSupportedError"));
      (envHttps, NativeError "https://stream.example.org:8000/live" (Some 4));
      (envHttps, NativeError "http://stream.example.org:8000/live" (Some 4));
      (envHttps, NativeError "http://stream.example.org:8000/live" (Some 4));
      (envHttps, NativeError "http://stream.example.org:8000/live" (Some 4));
      (envHttps, NativeError "http://stream.example.org:8000/live/;?cb=1700000000000"
                             (Some 2)) ] = true /\
  heardAtSource (init envHttps)
    [ (envHttps, PlayStation demoStation);
      (envHttps, PlaySettled 0 (Rejected "NotSupportedError"));
      (envHttps, NativeError "https://stream.example.org:8000/live" (Some 4));
      (envHttps, NativeError "http://stream.example.org:8000/live" (Some 4));
      (envHttps, CanPlay) ] = true /\
  heardAtSource (init envHttps)
    ((envHttps, PlayStation hlsStation)
     :: (envHttps, HlsError true NETWORK_ERROR)
     :: (repeat (envHttps,
                 NativeError "https://live.example.com/hls/master.m3u8" (Some 4)) 4
         ++ repeat (envHttps,
                    NativeError
                      "https://live.example.com/hls/master.m3u8/;?cb=1700000000000"
                      (Some 4)) 5)%list) = true.
Proof. vm_compute. auto. Qed.

(** ** Using up the stages *)








(** ** Play requests while playback is off *)

Lemma playCalls_app (l1 l2 : list Action) :
  playCalls (l1 ++ l2) = playCalls l1 + playCalls l2.
Proof.
  induction l1 as [|a l1 IH]; simpl; auto.
  destruct a; simpl; rewrite ?IH; auto.
Qed.

Ltac pres_plays :=
  solve [
    let w := fresh "w" in
    let H := fresh "H" in
    intros w H; cbn in *;
    rewrite ?playCalls_app; cbn;
    intuition (auto; try congruence; try lia) ].

Ltac pres_with leaf :=
  repeat first [ pres_step | progress unfold_ops ];
  try (unfold_setters; leaf).

Lemma commitBody_paused e last r n :
  isPlaying (r_props r) = false ->
  preserves (fun v => playCalls (log v) = n) (commitBody e last r).
Proof.
  intros Hp. unfold commitBody, attachEffect, visualizerEffect.
  rewrite Hp. cbn [andb when].
  pres_with pres_plays.
Qed.

Lemma settle_paused n e w :
  isPlaying (props w) = false ->
  playCalls (log (settle n e w)) = playCalls (log w).
Proof.
  revert w. induction n as [|n IH]; intros w Hp; cbn [settle]; auto.
  assert (Hc : playCalls (log (exec (commit e) w)) = playCalls (log w)).
  { unfold exec. rewrite commit_unfold.
    now apply (commitBody_paused e (committed w) (snapshot w)). }
  destruct (hooksEqb _ _); [exact Hc|].
  rewrite IH; [exact Hc|]. now rewrite commit_props.
Qed.

Lemma handle_plays e ev n :
  ev <> ManifestParsed ->
  preserves (fun v => playCalls (log v) = n) (handle e ev).
Proof.
  intros H. destruct ev; try congruence; unfold handle; pres_with pres_plays.
Qed.

Lemma handle_props_kept e ev p :
  (forall s, ev <> PlayStation s) -> ev <> TogglePlay -> ev <> ManualRetry ->
  preserves (fun v => props v = p) (handle e ev).
Proof.
  intros H1 H2 H3.
  destruct ev; try congruence; try (now exfalso; eapply H1); unfold handle; pres.
Qed.

(** X15: an event that leaves playback off makes the player call [play()]
    on the element not once, whatever effects it sets off: pausing reloads
    the stream but does not start it. *)
Theorem no_play_request_while_paused (e : Env) (w : World) (ev : Event) :
  settled w ->
  isPlaying (props (step e w ev)) = false ->
  playCalls (log (step e w ev)) = playCalls (log w).
Proof.
  intros Hs Hp. unfold step in *. rewrite settle_props in Hp.
  rewrite (settle_paused _ _ _ Hp).
  destruct ev; try (apply handle_plays; [discriminate | reflexivity]).
  assert (Hk : props (exec (handle e ManifestParsed) w) = props w).
  { apply (handle_props_kept e ManifestParsed (props w)); try discriminate.
    reflexivity. }
  rewrite Hk in Hp.
  unfold handle, exec, bind, get, closure, hlsOnManifestParsed.
  rewrite Hs. cbn. rewrite Hp.
  now destruct (hlsRef (refs w)).
Qed.

Lemma no_play_request_while_paused_witness :
  let w := run (init envHttps) [(envHttps, PlayStation demoStation)] in
  playCalls (log w) = 1 /\
  playCalls (log (step envHttps w TogglePlay)) = playCalls (log w).
Proof.
  split; [reflexivity|].
  apply (no_play_request_while_paused envHttps
    (run (init envHttps) [(envHttps, PlayStation demoStation)]) TogglePlay).
  - exact (run_at_rest _ _ (init_at_rest envHttps)).
  - reflexivity.
Defined.

(** ** Animation frames *)

(** X16: in every world a run reaches, an animation frame reads the
    analyser exactly when there is one and the current analysis flag is
    off; with no frame loop running it draws nothing. *)
Theorem frames_follow_the_current_flag
    (e0 e : Env) (tr : list (Env * Event)) :
  let w := run (init e0) tr in
  log (step e w Frame) =
  (log w ++ match drawLoop w with
            | None => []
            | Some _ =>
                [if analyserRef (refs w) && negb (isCorsBlocked (hooks w))
                 then DrawLive else DrawSynthetic]
            end)%list.
Proof.
  intros w. destruct (reachable_inSync e0 tr) as [Hs Hi]. fold w in Hs, Hi.
  clearbody w.
  destruct (inSync_at_rest w Hs Hi) as (_ & _ & _ & _ & _ & Q4).
  unfold step.
  assert (H : settled (exec (handle e Frame) w) /\
              log (exec (handle e Frame) w) =
              (log w ++ match drawLoop w with
                        | None => []
                        | Some _ =>
                            [if analyserRef (refs w) && negb (isCorsBlocked (hooks w))
                             then DrawLive else DrawSynthetic]
                        end)%list).
  { unfold handle, draw. unfold exec, bind, get, settled.
    destruct (drawLoop w) as [b|] eqn:Hd.
    - destruct (Q4 b eq_refl) as (_ & _ & ->).
      destruct (analyserRef (refs w) && negb (isCorsBlocked (hooks w)));
        cbn; (split; [exact Hs | reflexivity]).
    - cbn. split; [exact Hs | now rewrite app_nil_r]. }
  destruct H as [Hs1 Hlog]. now rewrite (settle_idle _ e _ Hs1).
Qed.

(** ** The segmented-stream adapter *)

Lemma adapterState_app (b : bool) (l1 l2 : list Action) :
  adapterState b (l1 ++ l2) =
  match adapterState b l1 with
  | Some b' => adapterState b' l2
  | None => None
  end.
Proof.
  revert b. induction l1 as [|a l1 IH]; intros b; cbn; auto.
  destruct (adapterStep b a); auto.
Qed.

Ltac pres_adapter :=
  solve [
    let w := fresh "w" in
    let H := fresh "H" in
    intros w H; cbn in *;
    rewrite ?adapterState_app, ?H; cbn; auto ].

Lemma visualizer_adapter e r :
  preserves (fun v => adapterState false (log v) = Some (hlsRef (refs v)))
            (visualizerEffect e r).
Proof. pres_with pres_adapter. Qed.

Lemma attach_adapter e r :
  preserves (fun v => adapterState false (log v) = Some (hlsRef (refs v)))
            (attachEffect e r).
Proof.
  intros w H. unfold attachEffect.
  destruct (station (r_props r)) as [s|]; [|exact H].
  cbv beta zeta delta [exec bind get when skip ret safePlay].
  destruct (hlsRef (refs w)) eqn:Hh;
    destruct (Nat.leb 3 (retryStage (r_hooks r)));
    destruct (includes _ ".m3u8"); destruct (hlsSupported e);
    destruct (Nat.eqb (retryStage (r_hooks r)) 0);
    destruct (isPlaying (r_props r)); destruct (hasError r);
    cbn; rewrite ?Hh; rewrite ?adapterState_app, ?H; cbn; reflexivity.
Qed.

Lemma listener_adapter r :
  preserves (fun v => adapterState false (log v) = Some (hlsRef (refs v)))
            (listenerEffect r).
Proof. pres_with pres_adapter. Qed.

Lemma reset_adapter :
  preserves (fun v => adapterState false (log v) = Some (hlsRef (refs v)))
            resetEffect.
Proof. pres_with pres_adapter. Qed.

Lemma commitBody_adapter e last r :
  preserves (fun v => adapterState false (log v) = Some (hlsRef (refs v)))
            (commitBody e last r).
Proof.
  unfold commitBody.
  repeat (apply preserves_bind; [ | intro ]); try apply preserves_when.
  - apply visualizer_adapter.
  - apply attach_adapter.
  - apply listener_adapter.
  - apply reset_adapter.
  - pres_adapter.
Qed.

Lemma handle_adapter e ev :
  preserves (fun v => adapterState false (log v) = Some (hlsRef (refs v)))
            (handle e ev).
Proof. unfold handle. pres_with pres_adapter. Qed.

Lemma settle_adapter n e w :
  adapterState false (log w) = Some (hlsRef (refs w)) ->
  adapterState false (log (settle n e w)) = Some (hlsRef (refs (settle n e w))).
Proof.
  revert w. induction n as [|n IH]; intros w H; cbn [settle]; auto.
  assert (Hc : adapterState false (log (exec (commit e) w))
               = Some (hlsRef (refs (exec (commit e) w)))).
  { unfold exec. rewrite commit_unfold. now apply commitBody_adapter. }
  destruct (hooksEqb _ _); [exact Hc | now apply IH].
Qed.

Lemma run_adapter w tr :
  adapterState false (log w) = Some (hlsRef (refs w)) ->
  adapterState false (log (run w tr)) = Some (hlsRef (refs (run w tr))).
Proof.
  revert w. induction tr as [|[e ev] tr IH]; intros w H; cbn [run]; auto.
  apply IH. unfold step. apply settle_adapter. now apply handle_adapter.
Qed.

(** X17: along every run the calls on the hls.js adapter are well formed:
    an adapter is created only while none lives, attached and destroyed
    only while it lives, and [hlsRef] holds one exactly while one lives.
    There is never more than one live adapter. *)
Theorem adapter_calls_are_well_formed (e : Env) (tr : list (Env * Event)) :
  adapterState false (log (run (init e) tr))
  = Some (hlsRef (refs (run (init e) tr))).
Proof. apply run_adapter. reflexivity. Qed.

(** ** The three-stage player *)

Lemma threeStage_signal e c u sg st :
  ThreeStage.signal e c u sg st =
  match actedOn [sg] with
  | code :: _ => ThreeStage.handlePlaybackError e c u code st
  | [] => st
  end.
Proof.
  destruct sg as [code|name code|fatal ty code]; cbn.
  - reflexivity.
  - unfold ThreeStage.onPlayRejected. now destruct (String.eqb name "AbortError").
  - unfold ThreeStage.hlsOnError. destruct fatal; [|reflexivity].
    now destruct ty.
Qed.

Lemma threeStage_deliver_snoc e c u l sg st :
  ThreeStage.deliver e c u (l ++ [sg]) st
  = ThreeStage.signal e c u sg (ThreeStage.deliver e c u l st).
Proof. unfold ThreeStage.deliver. now rewrite fold_left_app. Qed.

Lemma actedOn_snoc l sg : actedOn (l ++ [sg]) = (actedOn l ++ actedOn [sg])%list.
Proof. unfold actedOn. now rewrite flat_map_app. Qed.

(** X18: the handlers of one render of the three-stage player read the
    retry stage of that render, not the latest one.  In a render of stage 0
    or 1 every error acted on adds one to the stage and reports nothing, so
    the native error and the rejected play request of one failing stream
    together add two.  In a render of stage 2 no signal changes the stage,
    and the last error acted on leaves its message and turns buffering
    off. *)
Theorem three_stage_handlers_read_the_render_stage
    (e : Env) (c : nat) (u : string) (l : list ThreeStage.Signal)
    (st : ThreeStage.State) :
  let st' := ThreeStage.deliver e c u l st in
  (c < 2 ->
     st' = ThreeStage.mkState (ThreeStage.retryStage st + length (actedOn l))
                              (ThreeStage.error st) (ThreeStage.isBuffering st)) /\
  (2 <= c ->
     st' = match hd_error (rev (actedOn l)) with
           | None => st
           | Some code =>
               ThreeStage.mkState (ThreeStage.retryStage st)
                                  (Some (ThreeStage.displayMsg e u code)) false
           end).
Proof.
  cbn zeta. induction l as [|sg l IH] using rev_ind.
  - cbn. split; intros _; [|reflexivity].
    rewrite Nat.add_0_r. now destruct st.
  - rewrite threeStage_deliver_snoc, threeStage_signal, actedOn_snoc.
    rewrite length_app, rev_app_distr.
    destruct IH as [IH1 IH2].
    destruct (actedOn [sg]) as [|code rest] eqn:Ha.
    + cbn [length rev app]. rewrite Nat.add_0_r. split; assumption.
    + assert (Hr : rest = []).
      { destruct sg as [?|name ?|fatal ty ?]; cbn in Ha.
        - now injection Ha.
        - destruct (String.eqb name "AbortError"); [discriminate|now injection Ha].
        - destruct fatal; [|discriminate]. destruct ty; try discriminate;
            now injection Ha. }
      subst rest. cbn [length rev app hd_error].
      unfold ThreeStage.handlePlaybackError. split; intros Hc.
      * destruct (Nat.ltb_spec c 2); [|lia].
        rewrite (IH1 Hc). cbn. f_equal. lia.
      * destruct (Nat.ltb_spec c 2); [lia|].
        rewrite (IH2 Hc).
        now destruct (hd_error (rev (actedOn l))).
Qed.

Lemma three_stage_handlers_read_the_render_stage_witness :
  ThreeStage.deliver envHttps 1 "http://stream.example.org:8000/live"
    [ ThreeStage.NativeFailure (Some 4);
      ThreeStage.PlayRejection "NotSupportedError" (Some 4) ]
    (ThreeStage.mkState 1 None true)
  = ThreeStage.mkState 3 None true.
Proof.
  apply (proj1 (three_stage_handlers_read_the_render_stage envHttps 1
           "http://stream.example.org:8000/live"
           [ ThreeStage.NativeFailure (Some 4);
             ThreeStage.PlayRejection "NotSupportedError" (Some 4) ]
           (ThreeStage.mkState 1 None true))).
  lia.
Defined.

(** X19: the resolver of the three-stage player rewrites the URL at stage 0
    only.  On a page served over https its stage-0 URL never starts with
    "http://"; at stage 2 it is the station's [url] as it stands, so for a
    station whose [url] is plain http the failure reported there is the
    insecure-stream one, whatever the media error was. *)
Theorem three_stage_insecure_station_is_reported
    (e : Env) (s : Station) (code : option nat) (st : ThreeStage.State) :
  protocol e = "https:" ->
  startsWith (ThreeStage.getUrlForStage e s 0) "http://" = false /\
  ThreeStage.getUrlForStage e s 2 = url s /\
  (startsWith (url s) "http://" = true ->
   ThreeStage.error
     (ThreeStage.handlePlaybackError e 2 (ThreeStage.getUrlForStage e s 2) code st)
   = Some "Insecure stream blocked. Try the direct link.").
Proof.
  intros Hp. split; [|split].
  - unfold ThreeStage.getUrlForStage. cbn [Nat.eqb andb].
    rewrite Hp, String.eqb_refl, andb_true_r.
    destruct (startsWith (orElse (url_resolved s) (url s)) "http://") eqn:Hs;
      [|exact Hs].
    rewrite (replace_at_start _ _ _ Hs). reflexivity.
  - reflexivity.
  - intros Hs. unfold ThreeStage.handlePlaybackError, ThreeStage.displayMsg,
      ThreeStage.getUrlForStage.
    cbn [Nat.ltb Nat.leb Nat.eqb andb ThreeStage.error].
    now rewrite Hp, Hs.
Qed.

Lemma three_stage_insecure_station_is_reported_witness :
  startsWith (ThreeStage.getUrlForStage envHttps demoStation 0) "http://" = false /\
  ThreeStage.getUrlForStage envHttps demoStation 2 = url demoStation /\
  (startsWith (url demoStation) "http://" = true ->
   ThreeStage.error
     (ThreeStage.handlePlaybackError envHttps 2
        (ThreeStage.getUrlForStage envHttps demoStation 2) (Some 3)
        (ThreeStage.mkState 2 None true))
   = Some "Insecure stream blocked. Try the direct link.").
Proof.
  apply (three_stage_insecure_station_is_reported envHttps demoStation (Some 3)
           (ThreeStage.mkState 2 None true)).
  reflexivity.
Defined.
